(** * The preprocessing code of the notebook 3D_image_classification.ipynb

    A shallow embedding of the cells of
    [examples/vision/ipynb/3D_image_classification.ipynb]: the sliding
    windows over the satellite frames ([is_completely_black],
    [temp_series]) and the array made of them ([tc_n]), the
    train/validation split, the CT volume helpers ([normalize],
    [resize_volume], [process_scan]), the rotation augmentation
    ([rotate]), the preprocessing functions and the data loaders
    ([train_dataset], [validation_dataset]), the montage ([plot_slices])
    and the layers of the network ([get_model]).

    Python lists are lists and Python integers are [Z].  An array of
    examples along axis 0 is the list of its examples.  A float is a
    rational number, an infinity or NaN; an arithmetic operation on floats
    is the exact operation followed by the rounding of the format. *)

From Stdlib Require Import ZArith QArith Qround Qabs Qpower List Bool Lia Lqa.
From Stdlib Require Import Morphisms Setoid Sorted Permutation.
Import ListNotations.

Local Open Scope Z_scope.

(** * Part I: the code *)

(** ** Python built-ins used by the cells *)

(** The nearest integer, a tie going to the even one. *)
Definition round_half_even (x : Q) : Z :=
  let f := Qfloor x in
  match (x - inject_Z f ?= 1 # 2)%Q with
  | Lt => f
  | Gt => f + 1
  | Eq => if Z.even f then f else f + 1
  end.

Module Py.

(** [len(l)], a Python integer. *)
Definition len {A} (l : list A) : Z := Z.of_nat (length l).

(** [range(lo, hi)]: empty as soon as [hi <= lo]. *)
Definition range (lo hi : Z) : list Z :=
  map (fun i => lo + Z.of_nat i) (seq 0 (Z.to_nat (hi - lo))).

(** [l[lo:hi]] for bounds that are not negative: the elements at the
    indices [lo <= i < min hi (len l)]; a bound beyond the end is cut to
    the end, nothing is raised. *)
Definition slice {A} (l : list A) (lo hi : Z) : list A :=
  firstn (Z.to_nat (hi - lo)) (skipn (Z.to_nat lo) l).

(** [l[:k]] and [l[k:]] for a literal [k] that is not negative. *)
Definition upto {A} (k : nat) (l : list A) : list A := firstn k l.
Definition from {A} (k : nat) (l : list A) : list A := skipn k l.

(** [any(...)] over a generator of booleans. *)
Definition any {A} (p : A -> bool) (l : list A) : bool := existsb p l.

(** [round(x)] of a float. *)
Definition round (x : Q) : Z := round_half_even x.

End Py.

(** ** Frames and the sliding windows (cells 17 to 21) *)

(** A frame is what [cv2.imread(path, 0)] and [cv2.resize] return: the
    rows of a single-channel 8-bit image. *)
Definition pixel := Z.
Definition frame := list (list pixel).

(** [np.all(image == 0)]: the comparison is taken pixel by pixel and
    [np.all] of an array without elements is [True]. *)
Definition is_completely_black (image : frame) : bool :=
  forallb (forallb (fun p => p =? 0)) image.

(** The window size of the notebook, [ws = 6]. *)
Definition ws_default : nat := 6.

(** The start offsets the comprehension runs over,
    [range(0, len(X)-(2*ws)+1)]. *)
Definition offsets (X : list frame) (ws : nat) : list Z :=
  Py.range 0 (Py.len X - (2 * Z.of_nat ws) + 1).

(** The window [X[n:n+ws]]. *)
Definition window (X : list frame) (ws : nat) (n : Z) : list frame :=
  Py.slice X n (n + Z.of_nat ws).

(** The guard [not any(is_completely_black(img) for img in X[n:n+ws])]. *)
Definition keeps (X : list frame) (ws : nat) (n : Z) : bool :=
  negb (Py.any is_completely_black (window X ws n)).

(** The offsets that pass the guard, in the order of the range. *)
Definition kept_offsets (X : list frame) (ws : nat) : list Z :=
  filter (keeps X ws) (offsets X ws).

(** [temp_series = [X[n:n+ws] for n in range(0, len(X)-(2*ws)+1)
       if not any(is_completely_black(img) for img in X[n:n+ws])]] *)
Definition temp_series (X : list frame) (ws : nat) : list (list frame) :=
  map (window X ws) (kept_offsets X ws).

(** A frame whose every pixel equals zero. *)
Definition every_pixel_zero (image : frame) : Prop :=
  forall row, In row image -> forall p, In p row -> p = 0.

(** The frame lists in which the frame at index [k], and no other, has
    every pixel equal to zero. *)
Definition black_only_at (k : nat) (X : list frame) : Prop :=
  forall i, (i < length X)%nat -> (every_pixel_zero (nth i X []) <-> i = k).

(** A 2x2 frame filled with the grey level [k]. *)
Definition flat_frame (k : pixel) : frame := [[k; k]; [k; k]].

(** Ten frames, the one at index 4 black. *)
Definition frames10 : list frame :=
  map flat_frame [1; 2; 3; 4; 0; 6; 7; 8; 9; 10].

(** Five frames, none of them black. *)
Definition frames5 : list frame := map flat_frame [10; 20; 30; 40; 50].

(** ** The train and validation split (cell "Build train and validation
       datasets") *)

(** An array seen along its first axis: the shape of each of its examples
    and the examples.  [np.array] of a list of scalars, and of an empty
    list, has the single axis of the examples. *)
Record array (A : Type) : Type := {
  example_shape : list nat;
  examples : list A
}.
Arguments example_shape {A} _.
Arguments examples {A} _.

Module NumPyAxis0.

(** [len(a)] *)
Definition len {A} (a : array A) : Z := Py.len (examples a).

(** [a[:k]] and [a[k:]] for a literal [k] that is not negative: slices
    along the first axis, the other axes are kept. *)
Definition upto {A} (k : nat) (a : array A) : array A :=
  {| example_shape := example_shape a; examples := Py.upto k (examples a) |}.
Definition from {A} (k : nat) (a : array A) : array A :=
  {| example_shape := example_shape a; examples := Py.from k (examples a) |}.

(** [np.concatenate((a, b), axis=0)]: the examples of [a] followed by
    those of [b]; ValueError unless the two arrays have the same number of
    axes and agree on every axis but the first. *)
Definition concatenate {A} (a b : array A) : option (array A) :=
  if list_eq_dec Nat.eq_dec (example_shape a) (example_shape b)
  then Some {| example_shape := example_shape a;
               examples := examples a ++ examples b |}
  else None.

End NumPyAxis0.

Section Split.

(** A processed scan; the split never looks inside one. *)
Context {scan : Type}.

(** [np.array([process_scan(path) for path in paths])], over the list of
    the processed scans: every scan has the shape (128, 128, 64) that
    [process_scan] gives it, so that the array has four axes; the array of
    an empty list has the shape (0,). *)
Definition np_array_scans (scans : list scan) : array scan :=
  {| example_shape := match scans with
                      | [] => []
                      | _ :: _ => [128; 128; 64]%nat
                      end;
     examples := scans |}.

(** [np.array(l)] of a list of integers. *)
Definition np_array_labels (l : list Z) : array Z :=
  {| example_shape := []; examples := l |}.

(** [np.array([1 for _ in range(len(abnormal_scans))])] and
    [np.array([0 for _ in range(len(normal_scans))])]. *)
Definition abnormal_labels (abnormal_scans : array scan) : array Z :=
  np_array_labels
    (map (fun _ => 1) (Py.range 0 (NumPyAxis0.len abnormal_scans))).
Definition normal_labels (normal_scans : array scan) : array Z :=
  np_array_labels
    (map (fun _ => 0) (Py.range 0 (NumPyAxis0.len normal_scans))).

Definition x_train (abnormal_scans normal_scans : array scan)
  : option (array scan) :=
  NumPyAxis0.concatenate (NumPyAxis0.upto 70 abnormal_scans)
                         (NumPyAxis0.upto 70 normal_scans).
Definition y_train (abnormal_scans normal_scans : array scan)
  : option (array Z) :=
  NumPyAxis0.concatenate
    (NumPyAxis0.upto 70 (abnormal_labels abnormal_scans))
    (NumPyAxis0.upto 70 (normal_labels normal_scans)).
Definition x_val (abnormal_scans normal_scans : array scan)
  : option (array scan) :=
  NumPyAxis0.concatenate (NumPyAxis0.from 70 abnormal_scans)
                         (NumPyAxis0.from 70 normal_scans).
Definition y_val (abnormal_scans normal_scans : array scan)
  : option (array Z) :=
  NumPyAxis0.concatenate
    (NumPyAxis0.from 70 (abnormal_labels abnormal_scans))
    (NumPyAxis0.from 70 (normal_labels normal_scans)).

(** The four assignments of the cell, in their order; an error of one of
    them ends the cell. *)
Definition split (abnormal_scans normal_scans : array scan)
  : option (array scan * array Z * array scan * array Z) :=
  match x_train abnormal_scans normal_scans with
  | None => None
  | Some x_train =>
      match y_train abnormal_scans normal_scans with
      | None => None
      | Some y_train =>
          match x_val abnormal_scans normal_scans with
          | None => None
          | Some x_val =>
              match y_val abnormal_scans normal_scans with
              | None => None
              | Some y_val => Some (x_train, y_train, x_val, y_val)
              end
          end
      end
  end.

End Split.
(** ** Floating-point formats *)

(** [2^e] for an integer exponent. *)
Definition pow2 (e : Z) : Q := (2 ^ e)%Q.

(** The exponent [e] of a positive number [x]: [2^e <= x < 2^(e+1)]. *)
Definition exponent (x : Q) : Z :=
  let n := Qnum x in
  let d := Z.pos (Qden x) in
  let k := Z.log2 n - Z.log2 d in
  if d * 2 ^ Z.max 0 k <=? n * 2 ^ Z.max 0 (- k) then k else k - 1.

(** With [prec] significant bits: the exponent of the last place of a
    positive [x], and [x] counted in units of that place. *)
Definition last_place (prec : Z) (x : Q) : Z := exponent x - (prec - 1).
Definition scaled (prec : Z) (x : Q) : Q :=
  (x * pow2 (- last_place prec x))%Q.

(** Rounding to the nearest number of [prec] significant bits, a tie going
    to the even significand; the exponent range is not bounded. *)
Definition round_positive (prec : Z) (x : Q) : Q :=
  (inject_Z (round_half_even (scaled prec x)) * pow2 (last_place prec x))%Q.

Definition round_binary (prec : Z) (x : Q) : Q :=
  match (x ?= 0)%Q with
  | Eq => 0%Q
  | Gt => round_positive prec x
  | Lt => (- round_positive prec (- x))%Q
  end.

(** [float64], the type of Python floats and of the arrays that
    [get_fdata] returns, and [float32].  The exponent range is not
    bounded: the overflow to an infinity and the underflow (for
    [float32], the loss of bits below [2^-126] and the flush to zero
    below [2^-149]) are not modelled.  [normalize] converts to [float32]
    the values [(v + 1000) / 1400] of [[0, 1]] only, which for a
    [float64] voxel [v] are zero or above [2^-54]. *)
Definition binary64 : Q -> Q := round_binary 53.
Definition binary32 : Q -> Q := round_binary 24.

(** [2^-24], the unit roundoff of [float32]. *)
Definition unit_roundoff : Q := 1 # 16777216.

(** What the functions below need of a rounding: it grows with its
    argument, it leaves the integers below [2^24] alone and its relative
    error is at most [2^-24].  The two formats above have these
    properties ([binary64_rounding], [binary32_rounding]). *)
Class Rounding (rnd : Q -> Q) : Prop := {
  rnd_proper :: Proper (Qeq ==> Qeq) rnd;
  rnd_monotone : forall x y, (x <= y)%Q -> (rnd x <= rnd y)%Q;
  rnd_integer : forall z : Z,
      Z.abs z < 2 ^ 24 -> (rnd (inject_Z z) == inject_Z z)%Q;
  rnd_relative : forall x,
      (Qabs (rnd x - x) <= Qabs x * unit_roundoff)%Q
}.

(** ** NumPy arrays of floats *)

Module NumPy.

(** An element of a float array: a finite number, an infinity or NaN.
    Zero has no sign here. *)
Inductive float : Type :=
| NaN
| NegInf
| PosInf
| Fin (q : Q).

(** A Python integer used as the scalar operand of an array operation. *)
Definition of_int (z : Z) : float := Fin (inject_Z z).

(** [a < b] and [a > b] on elements: a comparison with NaN is false. *)
Definition less (a b : float) : bool :=
  match a, b with
  | NaN, _ | _, NaN => false
  | _, NegInf => false
  | NegInf, _ => true
  | PosInf, _ => false
  | Fin _, PosInf => true
  | Fin x, Fin y => negb (Qle_bool y x)
  end.
Definition greater (a b : float) : bool := less b a.

(** [a - b] in the format of [rnd]. *)
Definition sub (rnd : Q -> Q) (a b : float) : float :=
  match a, b with
  | NaN, _ | _, NaN => NaN
  | PosInf, PosInf | NegInf, NegInf => NaN
  | PosInf, _ | _, NegInf => PosInf
  | NegInf, _ | _, PosInf => NegInf
  | Fin x, Fin y => Fin (rnd (x - y)%Q)
  end.

(** The infinity with the sign of [x], NaN when [x] is zero. *)
Definition signed_inf (x : Q) : float :=
  match (x ?= 0)%Q with
  | Lt => NegInf
  | Gt => PosInf
  | Eq => NaN
  end.

(** [a / b] in the format of [rnd]; NumPy does not raise when an array is
    divided by zero. *)
Definition div (rnd : Q -> Q) (a b : float) : float :=
  match a, b with
  | NaN, _ | _, NaN => NaN
  | (PosInf | NegInf), (PosInf | NegInf) => NaN
  | PosInf, Fin y => if Qle_bool 0 y then PosInf else NegInf
  | NegInf, Fin y => if Qle_bool 0 y then NegInf else PosInf
  | Fin _, (PosInf | NegInf) => Fin 0
  | Fin x, Fin y => if Qeq_bool y 0 then signed_inf x
                    else Fin (rnd (x / y)%Q)
  end.

(** The conversion of an element to the format of [rnd]. *)
Definition cast (rnd : Q -> Q) (a : float) : float :=
  match a with
  | Fin x => Fin (rnd x)
  | special => special
  end.

(** An array: its shape and its elements in storage order. *)
Record ndarray : Type := { shape : list nat; data : list float }.

(** An operation applied to every element. *)
Definition elementwise (f : float -> float) (a : ndarray) : ndarray :=
  {| shape := shape a; data := map f (data a) |}.

(** [a[mask(a)] = value] *)
Definition assign_where (mask : float -> bool) (value : float)
  : ndarray -> ndarray :=
  elementwise (fun x => if mask x then value else x).

(** [a.astype(...)] to the format of [rnd]. *)
Definition astype (rnd : Q -> Q) : ndarray -> ndarray :=
  elementwise (cast rnd).

End NumPy.

Import NumPy.

(** ** Exceptions *)

(** A cell either returns or raises; [None] stands for the exception
    (ZeroDivisionError, IndexError, or the errors of scipy). *)
Definition bind {A B} (m : option A) (k : A -> option B) : option B :=
  match m with
  | Some a => k a
  | None => None
  end.

Notation "x <- m ;; k" := (bind m (fun x => k))
  (at level 61, m at next level, right associativity).

(** ** The volume helpers (cell "Loading data and preprocessing") *)

Section Volumes.

(** The roundings of [float64] and of [float32]. *)
Variables float64 float32 : Q -> Q.

(** The body of [normalize], with its two constants [min] and [max] as
    parameters. *)
Definition normalize_with (min max : Z) (volume : ndarray) : ndarray :=
  let volume :=
    assign_where (fun v => less v (of_int min)) (of_int min) volume in
  let volume :=
    assign_where (fun v => greater v (of_int max)) (of_int max) volume in
  let volume :=
    elementwise (fun v => div float64 (sub float64 v (of_int min))
                              (of_int (max - min))) volume in
  let volume := astype float32 volume in
  volume.

(** [normalize]: [min = -1000], [max = 400]. *)
Definition normalize (volume : ndarray) : ndarray :=
  normalize_with (-1000) 400 volume.

(** [a / b] on Python numbers: a float, or ZeroDivisionError. *)
Definition truediv (a b : Q) : option Q :=
  if Qeq_bool b 0 then None else Some (float64 (a / b)%Q).

(** [shape[i]], where a negative [i] counts from the end: IndexError out
    of range. *)
Definition shape_at (s : list nat) (i : Z) : option Q :=
  let pos := if i <? 0 then Py.len s + i else i in
  if pos <? 0 then None
  else option_map (fun n => inject_Z (Z.of_nat n)) (nth_error s (Z.to_nat pos)).

(** scipy.ndimage computes the samples of a rotated or zoomed array by
    spline interpolation; these kernels are no part of the notebook and
    stay parameters.  The shapes are those scipy gives the outputs. *)
Variable rotate_samples : Z -> ndarray -> list float.
Variable zoom_samples : list Q -> ndarray -> list float.

(** [ndimage.rotate(input, angle, reshape=False)]: in the plane of the
    first two axes; the output has the shape of the input.  An input with
    fewer than two axes is refused. *)
Definition ndimage_rotate (input : ndarray) (angle : Z) : option ndarray :=
  if (length (shape input) <? 2)%nat then None
  else Some {| shape := shape input; data := rotate_samples angle input |}.

(** The shape [ndimage.zoom] gives its output:
    [int(round(ii * jj)) for ii, jj in zip(input.shape, zoom)]. *)
Definition zoom_shape (input_shape : list nat) (zoom : list Q) : list nat :=
  map (fun '(ii, jj) =>
         Z.to_nat (Py.round (float64 (inject_Z (Z.of_nat ii) * jj)%Q)))
      (combine input_shape zoom).

(** [ndimage.zoom(input, zoom, order=1)] with one factor per axis; a
    sequence of factors of another length is refused. *)
Definition ndimage_zoom (input : ndarray) (zoom : list Q) : option ndarray :=
  if (length zoom =? length (shape input))%nat
  then Some {| shape := zoom_shape (shape input) zoom;
               data := zoom_samples zoom input |}
  else None.

Definition resize_volume (img : ndarray) : option ndarray :=
  (* Set the desired depth *)
  let desired_depth := 64%Q in
  let desired_width := 128%Q in
  let desired_height := 128%Q in
  (* Get current depth *)
  current_depth <- shape_at (shape img) (-1) ;;
  current_width <- shape_at (shape img) 0 ;;
  current_height <- shape_at (shape img) 1 ;;
  (* Compute depth factor *)
  depth <- truediv current_depth desired_depth ;;
  width <- truediv current_width desired_width ;;
  height <- truediv current_height desired_height ;;
  depth_factor <- truediv 1 depth ;;
  width_factor <- truediv 1 width ;;
  height_factor <- truediv 1 height ;;
  (* Rotate *)
  img <- ndimage_rotate img 90 ;;
  (* Resize across z-axis *)
  img <- ndimage_zoom img [width_factor; height_factor; depth_factor] ;;
  Some img.

(** [process_scan], from the volume that [read_nifti_file(path)] has
    loaded. *)
Definition process_scan (volume : ndarray) : option ndarray :=
  (* Normalize *)
  let volume := normalize volume in
  (* Resize width, height and depth *)
  volume <- resize_volume volume ;;
  Some volume.

(** ** The rotation augmentation (cell "Data augmentation") *)

(** The rotation angles, in degrees. *)
Definition angles : list Z := [-20; -10; -5; 5; 10; 20].

(** [random.choice(seq)], from the index that the generator draws. *)
Definition random_choice {A} (seq : list A) (draw : nat) : option A :=
  nth_error seq (draw mod length seq).

(** [scipy_rotate] once the angle is picked. *)
Definition scipy_rotate_by (angle : Z) (volume : ndarray) : option ndarray :=
  (* rotate volume *)
  volume <- ndimage_rotate volume angle ;;
  let volume :=
    assign_where (fun v => less v (of_int 0)) (of_int 0) volume in
  let volume :=
    assign_where (fun v => greater v (of_int 1)) (of_int 1) volume in
  Some volume.

Definition scipy_rotate (draw : nat) (volume : ndarray) : option ndarray :=
  (* pick angles at random *)
  angle <- random_choice angles draw ;;
  scipy_rotate_by angle volume.

(** [rotate]: [tf.numpy_function] hands the volume to [scipy_rotate] and
    returns what it returns. *)
Definition rotate (draw : nat) (volume : ndarray) : option ndarray :=
  scipy_rotate draw volume.

(** ** One element at a time *)

(** The two masked assignments [v[v < min] = min; v[v > max] = max] on an
    element. *)
Definition clip (min max : Z) (v : float) : float :=
  let v := if less v (of_int min) then of_int min else v in
  if greater v (of_int max) then of_int max else v.

(** What [normalize_with] makes of an element. *)
Definition normalize_element (min max : Z) (v : float) : float :=
  cast float32
    (div float64 (sub float64 (clip min max v) (of_int min))
         (of_int (max - min))).

(** What [normalize] makes of a finite element: [clipped], then
    [rescale]. *)
Definition clipped (x : Q) : Q :=
  if less (Fin x) (of_int (-1000)) then (-1000)%Q
  else if greater (Fin x) (of_int 400) then 400%Q else x.

Definition rescale (c : Q) : Q :=
  float32 (float64 (float64 (c - (-1000))%Q / 1400)%Q).

End Volumes.

(** ** Vocabulary of the properties *)

(** The same element: the same special value, or equal numbers. *)
Definition same (a b : float) : Prop :=
  match a, b with
  | NaN, NaN | NegInf, NegInf | PosInf, PosInf => True
  | Fin x, Fin y => (x == y)%Q
  | _, _ => False
  end.

(** An element that lies in [[lo, hi]]; NaN lies in no interval. *)
Definition within (lo hi : Q) (a : float) : Prop :=
  match a with
  | Fin x => (lo <= x <= hi)%Q
  | _ => False
  end.

(** [a <= b] on elements, false when one of them is NaN. *)
Definition less_equal (a b : float) : Prop :=
  match a, b with
  | NaN, _ | _, NaN => False
  | NegInf, _ | _, PosInf => True
  | _, NegInf | PosInf, _ => False
  | Fin x, Fin y => (x <= y)%Q
  end.

(** A rounding that grows with its argument. *)
Definition monotone (rnd : Q -> Q) : Prop :=
  forall x y, (x <= y)%Q -> (rnd x <= rnd y)%Q.

(** A volume: an array with three axes. *)
Definition is_volume (a : ndarray) : Prop := length (shape a) = 3%nat.

(** What [normalize] guarantees of the element [o] it makes of [v]. *)
Definition normalized (v o : float) : Prop :=
  (v <> NaN -> within 0 1 o) /\
  (less_equal v (of_int (-1000)) -> same o (of_int 0)) /\
  (less_equal (of_int 400) v -> same o (of_int 1)) /\
  (v = NaN -> o = NaN).

(** What the two masked assignments of [scipy_rotate] make of the sample
    [s]: NaN stays NaN, any other sample lands in [[0, 1]]. *)
Definition clamped (s o : float) : Prop :=
  (s = NaN -> o = NaN) /\ (s <> NaN -> within 0 1 o).

(** ** Data of the examples *)

(** A volume of a single voxel. *)
Definition voxel_volume (v : float) : ndarray :=
  {| shape := [1; 1; 1]%nat; data := [v] |}.

(** A 2x2x2 volume of Hounsfield units with values on both sides of the
    clip bounds, an infinity and a NaN. *)
Definition hu_volume : ndarray :=
  {| shape := [2; 2; 2]%nat;
     data := [Fin (-1200); Fin (-1000); Fin (-300); Fin 0;
              Fin 400; Fin 500; PosInf; NaN] |}.

(** A 1x2x2 volume with values in [[0, 1]]. *)
Definition unit_volume : ndarray :=
  {| shape := [1; 2; 2]%nat;
     data := [Fin 0; Fin (1 # 4); Fin (1 # 2); Fin 1] |}.

(** A volume without voxels: its first axis has length 0. *)
Definition empty_volume : ndarray :=
  {| shape := [0; 4; 4]%nat; data := [] |}.

(** A stand-in for an interpolation kernel: the samples of the input, as
    they are.  Like the interpolation of scipy it gives NaN samples for an
    input of NaN voxels; elsewhere it serves where the samples play no
    part. *)
Definition keep_samples {A} (_ : A) (input : ndarray) : list float :=
  data input.

(** ** The argument of [normalize] after the call *)

(** [normalize] writes its two masked assignments into the array it is
    given; the subtraction that follows makes a new array.  This is the
    array the caller holds after the call. *)
Definition normalize_in_place (min max : Z) (volume : ndarray) : ndarray :=
  let volume :=
    assign_where (fun v => less v (of_int min)) (of_int min) volume in
  let volume :=
    assign_where (fun v => greater v (of_int max)) (of_int max) volume in
  volume.

(** ** The preprocessing of the data loaders (cell "Data augmentation") *)

(** [tf.expand_dims(input, axis)] for an axis that is not negative: an
    axis of length 1 is put at position [axis]; a position beyond the
    number of axes is refused. *)
Definition expand_dims (input : ndarray) (axis : nat) : option ndarray :=
  if (axis <=? length (shape input))%nat
  then Some {| shape := firstn axis (shape input) ++ [1%nat]
                        ++ skipn axis (shape input);
               data := data input |}
  else None.

(** An example of a dataset: a volume and its label. *)
Definition example : Type := ndarray * Z.

Section Preprocessing.

Variable rotate_samples : Z -> ndarray -> list float.

(** [train_preprocessing(volume, label)], with the index the generator
    draws for the angle. *)
Definition train_preprocessing (draw : nat) (e : example) : option example :=
  let '(volume, label) := e in
  (* Rotate volume *)
  volume <- rotate rotate_samples draw volume ;;
  volume <- expand_dims volume 3 ;;
  Some (volume, label).

(** [validation_preprocessing(volume, label)] *)
Definition validation_preprocessing (e : example) : option example :=
  let '(volume, label) := e in
  volume <- expand_dims volume 3 ;;
  Some (volume, label).

(** An example with a channel axis added to its volume. *)
Definition with_channel (e : example) : example :=
  ({| shape := shape (fst e) ++ [1%nat]; data := data (fst e) |}, snd e).


End Preprocessing.

(** ** The data loaders (cell "Define data loaders") *)

(** [tf.data.Dataset.from_tensor_slices((x, y))]: the examples paired
    with the labels; arrays of different lengths are refused. *)
Definition from_tensor_slices {A B} (x : list A) (y : list B)
  : option (list (A * B)) :=
  if (length x =? length y)%nat then Some (combine x y) else None.

(** [dataset.shuffle(buffer_size)] with a buffer that holds the whole
    dataset: the elements in the order the generator draws, [order] being
    a permutation of the indices.  A buffer of size 0 is refused. *)
Definition shuffle {A} (buffer_size : nat) (order : list nat) (l : list A)
  : option (list A) :=
  if (buffer_size =? 0)%nat then None
  else Some (flat_map (fun i => match nth_error l i with
                                | Some x => [x]
                                | None => []
                                end) order).

(** [dataset.map(f)] where [f] may draw: the [k]-th element is mapped with
    the draw [draws k]; an error of [f] is an error of the dataset. *)
Fixpoint dataset_map {A B} (f : nat -> A -> option B) (draws : nat -> nat)
  (k : nat) (l : list A) : option (list B) :=
  match l with
  | [] => Some []
  | x :: l =>
      y <- f (draws k) x ;;
      ys <- dataset_map f draws (S k) l ;;
      Some (y :: ys)
  end.

(** [dataset.batch(batch_size)]: consecutive groups of [batch_size]
    elements, the last group holding what is left.  The volumes of a batch
    are stacked, which needs them to have one shape. *)
Definition chunks {A} (batch_size : nat) (l : list A) : list (list A) :=
  map (fun i => firstn batch_size (skipn (i * batch_size) l))
      (seq 0 ((length l + batch_size - 1) / batch_size)).

Definition stackable (b : list example) : bool :=
  match b with
  | [] => true
  | e :: _ =>
      forallb (fun e' => if list_eq_dec Nat.eq_dec (shape (fst e'))
                                        (shape (fst e))
                         then true else false) b
  end.

Definition batch (batch_size : nat) (l : list example)
  : option (list (list example)) :=
  if (batch_size =? 0)%nat then None
  else if forallb stackable (chunks batch_size l)
       then Some (chunks batch_size l) else None.

(** [dataset.prefetch(n)] changes nothing in what is delivered. *)
Definition prefetch {A} (n : nat) (l : A) : A := l.

Definition batch_size : nat := 2.

Section DataLoaders.

Variable rotate_samples : Z -> ndarray -> list float.

(** One pass over [train_dataset]: [order] is the order the shuffle
    draws, [draws k] the angle index drawn for the [k]-th example. *)
Definition train_dataset (order : list nat) (draws : nat -> nat)
  (x_train : list ndarray) (y_train : list Z)
  : option (list (list example)) :=
  train_loader <- from_tensor_slices x_train y_train ;;
  shuffled <- shuffle (length x_train) order train_loader ;;
  mapped <- dataset_map (train_preprocessing rotate_samples) draws 0 shuffled ;;
  batched <- batch batch_size mapped ;;
  Some (prefetch 2 batched).

(** One pass over [validation_dataset]. *)
Definition validation_dataset (order : list nat)
  (x_val : list ndarray) (y_val : list Z)
  : option (list (list example)) :=
  validation_loader <- from_tensor_slices x_val y_val ;;
  shuffled <- shuffle (length x_val) order validation_loader ;;
  mapped <- dataset_map (fun _ => validation_preprocessing) (fun _ => 0%nat)
                        0 shuffled ;;
  batched <- batch batch_size mapped ;;
  Some (prefetch 2 batched).

End DataLoaders.

(** ** NumPy indexing, in storage order *)

(** [a.size] for the shape of [a]. *)
Fixpoint size (s : list nat) : nat :=
  match s with
  | [] => 1%nat
  | n :: s => (n * size s)%nat
  end.

(** The place of the element at the index [idx] in the storage of an array
    of shape [s] (row-major order), and the index of a place. *)
Fixpoint ravel (s idx : list nat) : nat :=
  match s, idx with
  | _ :: s, i :: idx => (i * size s + ravel s idx)%nat
  | _, _ => 0%nat
  end.

Fixpoint unravel (s : list nat) (place : nat) : list nat :=
  match s with
  | [] => []
  | _ :: s => (place / size s)%nat :: unravel s (place mod size s)%nat
  end.


(** [a[i, j, ...]] for an index within the shape. *)
Definition at_index (a : ndarray) (idx : list nat) : float :=
  nth (ravel (shape a) idx) (data a) NaN.

(** The array of shape [s] whose element at [idx] is [f idx]. *)
Definition tabulate (s : list nat) (f : list nat -> float) : ndarray :=
  {| shape := s; data := map (fun place => f (unravel s place))
                             (seq 0 (size s)) |}.

(** [a[i, j]]: the array of the elements [a[i, j, ...]]. *)
Definition subarray (a : ndarray) (i j : nat) : ndarray :=
  tabulate (skipn 2 (shape a)) (fun idx => at_index a (i :: j :: idx)).


(** [np.rot90(m)]: a quarter turn in the plane of the first two axes,
    [rot90(m)[i, j, ...] = m[j, n1 - 1 - i, ...]] where [n1] is the length of
    the second axis; an array with fewer than two axes is refused. *)
Definition rot90 (m : ndarray) : option ndarray :=
  match shape m with
  | n0 :: n1 :: rest =>
      Some (tabulate (n1 :: n0 :: rest)
              (fun idx => match idx with
                          | i :: j :: r => at_index m (j :: (n1 - 1 - i)%nat :: r)
                          | _ => NaN
                          end))
  | _ => None
  end.

(** [np.transpose(a)]: the axes in reverse order. *)
Definition transpose (a : ndarray) : ndarray :=
  tabulate (rev (shape a)) (fun idx => at_index a (rev idx)).

(** [np.reshape(a, newshape)]: the same elements in the same storage
    order; a shape of another size is refused. *)
Definition reshape (a : ndarray) (newshape : list nat) : option ndarray :=
  if (size newshape =? size (shape a))%nat
  then Some {| shape := newshape; data := data a |}
  else None.

(** An array that holds as many elements as its shape says. *)
Definition well_formed (a : ndarray) : Prop :=
  length (data a) = size (shape a).

(** ** The array of the windows (cells 23 to 28) *)

Section Windows.

Variable float64 : Q -> Q.

(** The frames are what [cv2.resize(im, (width, height))] returns: arrays
    of [height] rows of [width] pixels. *)
Definition frame_of_size (width height : nat) (f : frame) : bool :=
  (length f =? height)%nat && forallb (fun row => length row =? width)%nat f.

(** [np.array(temp_series)]: the windows stacked into one array of shape
    [(len(temp_series), ws, height, width)]; of shape [(0,)] when there
    is no window and of shape [(len(temp_series), 0)] when the windows are
    empty.  Windows or frames of different sizes do not stack. *)
Definition np_array (ws width height : nat) (series : list (list frame))
  : option ndarray :=
  match series with
  | [] => Some {| shape := [0%nat]; data := [] |}
  | _ :: _ =>
      if forallb (fun w => (length w =? ws)%nat
                           && forallb (frame_of_size width height) w) series
      then Some {| shape := if (ws =? 0)%nat then [length series; 0%nat]
                            else [length series; ws; height; width];
                   data := map of_int (concat (concat (concat series))) |}
      else None
  end.

(** The three cells [tc_n = np.array(temp_series)], [tc_n = tc_n / 255.0]
    and [tc_n = tc_n.reshape(222, ws, width, height, 1)]. *)
Definition tc_n (ws width height : nat) (X : list frame) : option ndarray :=
  tc_n <- np_array ws width height (temp_series X ws) ;;
  let tc_n := elementwise (fun v => div float64 v (Fin 255)) tc_n in
  tc_n <- reshape tc_n [222%nat; ws; width; height; 1%nat] ;;
  Some tc_n.

End Windows.

(** A pixel of an 8-bit image. *)
Definition uint8 (p : pixel) : Prop := 0 <= p <= 255.

(** ** The montage (cell "plot_slices") *)

(** What [plot_slices] hands to matplotlib: the arguments of
    [plt.subplots] and the image shown on each axis of the grid. *)
Record montage : Type := {
  grid : nat * nat;
  figsize : Q * Q;
  height_ratios : list Z;
  shown : list (list ndarray)
}.

Section Montage.

Variable float64 : Q -> Q.

(** [sum(l)] of integers. *)
Definition py_sum (l : list Z) : Z := fold_right Z.add 0 l.

Definition plot_slices (num_rows num_columns width height : nat)
  (data : ndarray) : option montage :=
  data <- rot90 data ;;
  let data := transpose data in
  data <- reshape data [num_rows; num_columns; width; height] ;;
  let rows_data := num_rows in
  let columns_data := num_columns in
  (* [slc[0]] needs a first column; the rows of the grid are [width] high *)
  heights <- (if ((0 <? rows_data) && (columns_data =? 0))%nat then None
              else Some (repeat (Z.of_nat width) rows_data)) ;;
  (* [data[0]] needs a first row *)
  widths <- (if (rows_data =? 0)%nat then None
             else Some (repeat (Z.of_nat height) columns_data)) ;;
  let fig_width := 12%Q in
  (* an integer operand is converted to a float first *)
  let product := float64 (fig_width * float64 (inject_Z (py_sum heights)))%Q in
  fig_height <- (if py_sum widths =? 0 then None
                 else Some (float64 (product
                                     / float64 (inject_Z (py_sum widths)))%Q)) ;;
  (* the layout divides by the sum of the height ratios *)
  _ <- (if py_sum heights =? 0 then None else Some tt) ;;
  (* [axarr[i, j]] needs a grid of axes with two dimensions *)
  _ <- (if ((rows_data <? 2) || (columns_data <? 2))%nat then None
        else Some tt) ;;
  Some {| grid := (rows_data, columns_data);
          figsize := (fig_width, fig_height);
          height_ratios := heights;
          shown := map (fun i => map (fun j => subarray data i j)
                                     (seq 0 columns_data))
                       (seq 0 rows_data) |}.

End Montage.


(** Four slices of a single element, with a channel axis. *)
Definition four_slices : ndarray :=
  {| shape := [1; 1; 4; 1]%nat;
     data := [of_int 1; of_int 2; of_int 3; of_int 4] |}.

(** ** The network (cell "Define a 3D convolutional neural network") *)

(** The layers that [get_model] uses. *)
Inductive layer : Type :=
| Conv3D (filters kernel_size : Z)
| MaxPool3D (pool_size : Z)
| BatchNormalization
| GlobalAveragePooling3D
| Dense (units : Z)
| Dropout.

(** The shape of a tensor without its batch axis: the three sides and the
    channels of a feature map, or the length of a vector. *)
Inductive tensor_shape : Type :=
| Feature (width height depth channels : Z)
| Vector (units : Z).

(** The layers of [get_model], in the order they are applied to
    [keras.Input((width, height, depth, 1))]. *)
Definition get_model_layers : list layer :=
  [Conv3D 64 3; MaxPool3D 2; BatchNormalization;
   Conv3D 64 3; MaxPool3D 2; BatchNormalization;
   Conv3D 128 3; MaxPool3D 2; BatchNormalization;
   Conv3D 256 3; MaxPool3D 2; BatchNormalization;
   GlobalAveragePooling3D; Dense 512; Dropout; Dense 1].

(** A shape whose sides hold at least one element each; a layer whose
    output would have an empty side is refused when the model is built. *)
Definition positive_shape (s : tensor_shape) : bool :=
  match s with
  | Feature w h d _ => (1 <=? w) && (1 <=? h) && (1 <=? d)
  | Vector _ => true
  end.

Definition checked (s : tensor_shape) : option tensor_shape :=
  if positive_shape s then Some s else None.

(** The shape of the output of a layer: a convolution without padding
    takes a side [n] to [n - kernel_size + 1], a pooling with the stride of
    its window to [floor((n - pool_size) / pool_size) + 1], a dense layer
    acts on the last axis.  A convolution or a pooling of a vector has no
    output. *)
Definition output_shape (l : layer) (s : tensor_shape) : option tensor_shape :=
  match l, s with
  | Conv3D filters k, Feature w h d _ =>
      checked (Feature (w - k + 1) (h - k + 1) (d - k + 1) filters)
  | MaxPool3D p, Feature w h d c =>
      checked (Feature ((w - p) / p + 1) ((h - p) / p + 1) ((d - p) / p + 1) c)
  | BatchNormalization, s => Some s
  | Dropout, s => Some s
  | GlobalAveragePooling3D, Feature _ _ _ c => Some (Vector c)
  | Dense units, Vector _ => Some (Vector units)
  | Dense units, Feature w h d _ => Some (Feature w h d units)
  | _, _ => None
  end.

(** The number of weights of a layer on an input of shape [s]: kernel and
    bias of a convolution or of a dense layer, and for a batch
    normalization a scale, an offset, a moving mean and a moving variance
    per channel, the last two not trainable. *)
Definition channels (s : tensor_shape) : Z :=
  match s with
  | Feature _ _ _ c => c
  | Vector c => c
  end.

Definition params (l : layer) (s : tensor_shape) : Z :=
  match l with
  | Conv3D filters k => k * k * k * channels s * filters + filters
  | Dense units => channels s * units + units
  | BatchNormalization => 4 * channels s
  | _ => 0
  end.

Definition non_trainable_params (l : layer) (s : tensor_shape) : Z :=
  match l with
  | BatchNormalization => 2 * channels s
  | _ => 0
  end.

(** A row of [model.summary()]: a layer with the shape of its output and
    the number of its weights. *)
Record summary_row : Type := {
  row_layer : layer;
  row_output : tensor_shape;
  row_params : Z;
  row_non_trainable : Z
}.

Fixpoint summary (layers : list layer) (s : tensor_shape)
  : option (list summary_row) :=
  match layers with
  | [] => Some []
  | l :: layers =>
      s' <- output_shape l s ;;
      rows <- summary layers s' ;;
      Some ({| row_layer := l; row_output := s'; row_params := params l s;
               row_non_trainable := non_trainable_params l s |} :: rows)
  end.

(** [get_model(width, height, depth)], as its summary. *)
Definition get_model (width height depth : Z) : option (list summary_row) :=
  summary get_model_layers (Feature width height depth 1).

(** The totals at the foot of the summary, and the shape of the output. *)
Definition total_params (rows : list summary_row) : Z :=
  fold_right Z.add 0 (map row_params rows).

Definition total_non_trainable (rows : list summary_row) : Z :=
  fold_right Z.add 0 (map row_non_trainable rows).

Definition model_output (rows : list summary_row) : option tensor_shape :=
  option_map row_output (last (map Some rows) None).
(** * Part II: properties *)

(** ** Built-ins *)

Lemma in_range lo hi n : In n (Py.range lo hi) <-> lo <= n < hi.
Proof.
  unfold Py.range. rewrite in_map_iff. split.
  - intros (i & <- & Hi). apply in_seq in Hi. lia.
  - intros H. exists (Z.to_nat (n - lo)). split; [lia|].
    apply in_seq. lia.
Qed.

Lemma slice_length {A} (l : list A) lo hi :
  0 <= lo -> lo <= hi -> hi <= Py.len l ->
  length (Py.slice l lo hi) = Z.to_nat (hi - lo).
Proof.
  unfold Py.slice, Py.len. intros.
  rewrite length_firstn, length_skipn. lia.
Qed.

Lemma any_false {A} (p : A -> bool) l :
  Py.any p l = false <-> Forall (fun x => p x = false) l.
Proof.
  unfold Py.any. induction l as [|x l IH]; simpl.
  - split; auto.
  - rewrite orb_false_iff, IH. split.
    + intros [? ?]. now constructor.
    + intros H. inversion H. auto.
Qed.

(** ** The sliding windows *)

Lemma is_completely_black_spec image :
  is_completely_black image = true <-> every_pixel_zero image.
Proof.
  unfold is_completely_black, every_pixel_zero.
  rewrite forallb_forall. split.
  - intros H row Hrow p Hp. specialize (H row Hrow).
    rewrite forallb_forall in H. apply Z.eqb_eq. now apply H.
  - intros H row Hrow. apply forallb_forall. intros p Hp.
    apply Z.eqb_eq. now apply (H row).
Qed.

Lemma not_black_spec image :
  is_completely_black image = false <-> ~ every_pixel_zero image.
Proof.
  rewrite <- is_completely_black_spec.
  destruct (is_completely_black image); split; congruence.
Qed.

Lemma in_offsets X ws n :
  In n (offsets X ws) <-> 0 <= n < Py.len X - 2 * Z.of_nat ws + 1.
Proof. unfold offsets. apply in_range. Qed.

Lemma window_length X ws n :
  In n (offsets X ws) -> length (window X ws n) = ws.
Proof.
  intros H. apply in_offsets in H. unfold window.
  rewrite slice_length; unfold Py.len in *; lia.
Qed.

Lemma in_kept_offsets X ws n :
  In n (kept_offsets X ws) <-> In n (offsets X ws) /\ keeps X ws n = true.
Proof. unfold kept_offsets. apply filter_In. Qed.

Lemma keeps_spec X ws n :
  keeps X ws n = true <->
  Forall (fun f => ~ every_pixel_zero f) (window X ws n).
Proof.
  unfold keeps. rewrite negb_true_iff, any_false.
  split; apply Forall_impl; intros f; apply not_black_spec.
Qed.

(** C3. Every window of [temp_series] has length exactly [ws] and holds no
    frame whose every pixel is zero; the start offsets run over are exactly
    the integers of [[0, len(X) - 2*ws + 1)]; and the windows produced are
    the windows at those of these offsets that pass the guard. *)
Theorem temp_series_windows (X : list frame) (ws : nat) :
  Forall (fun w => length w = ws /\
                   Forall (fun f => ~ every_pixel_zero f) w)
         (temp_series X ws)
  /\ (forall n, In n (offsets X ws) <->
                0 <= n < Py.len X - 2 * Z.of_nat ws + 1)
  /\ (forall w, In w (temp_series X ws) <->
                exists n, In n (offsets X ws) /\ keeps X ws n = true /\
                          w = window X ws n).
Proof.
  split; [|split].
  - apply Forall_forall. intros w Hw.
    unfold temp_series in Hw. apply in_map_iff in Hw.
    destruct Hw as (n & <- & Hn). apply in_kept_offsets in Hn.
    destruct Hn as [Hoff Hkeep]. split.
    + now apply window_length.
    + now apply keeps_spec.
  - intros n. apply in_offsets.
  - intros w. unfold temp_series. rewrite in_map_iff. split.
    + intros (n & <- & Hn). apply in_kept_offsets in Hn.
      exists n. tauto.
    + intros (n & Hoff & Hkeep & ->). exists n. split; [reflexivity|].
      apply in_kept_offsets. tauto.
Qed.

(** C10. A frame list shorter than [2*ws] yields no window at all,
    whatever its frames are. *)
Theorem temp_series_short (X : list frame) (ws : nat) :
  Py.len X < 2 * Z.of_nat ws -> temp_series X ws = [].
Proof.
  intros H. unfold temp_series, kept_offsets, offsets, Py.range.
  replace (Z.to_nat (Py.len X - 2 * Z.of_nat ws + 1 - 0)) with 0%nat by lia.
  reflexivity.
Qed.

(** Five frames, none of them black, and a window size of three: there
    are enough frames for three windows, yet none is produced. *)
Lemma temp_series_short_witness :
  Py.len frames5 < 2 * Z.of_nat 3 /\ (3 <= length frames5)%nat /\
  Forall (fun f => is_completely_black f = false) frames5 /\
  temp_series frames5 3 = [].
Proof.
  split; [reflexivity|]. split; [simpl; lia|].
  split; [repeat constructor|].
  apply (temp_series_short frames5 3). reflexivity.
Defined.

Lemma black_only_at_bool k X i :
  black_only_at k X -> (i < length X)%nat ->
  is_completely_black (nth i X []) = (i =? k)%nat.
Proof.
  intros H Hi. specialize (H i Hi).
  rewrite <- is_completely_black_spec in H.
  destruct (Nat.eqb_spec i k) as [->|Hne].
  - now apply H.
  - destruct (is_completely_black (nth i X [])); [|reflexivity].
    exfalso. apply Hne. now apply H.
Qed.

Lemma frames10_black_only_at_4 : black_only_at 4 frames10.
Proof.
  intros i Hi. rewrite <- is_completely_black_spec.
  simpl in Hi.
  do 10 (destruct i as [|i]; [vm_compute; split; congruence|]).
  lia.
Qed.

(** The windows of [frames10] for a window size of 3, by their first
    pixels. *)
Example temp_series_frames10 :
  offsets frames10 3 = [0; 1; 2; 3; 4] /\
  kept_offsets frames10 3 = [0; 1] /\
  temp_series frames10 3
  = [map flat_frame [1; 2; 3]; map flat_frame [2; 3; 4]].
Proof. repeat split. Qed.

(** C6, as stated, fails: with ten frames, the one at index 4 black, and a
    window size of 3, the offsets 5, 6 and 7 pass no window to the output,
    although their windows hold no black frame. *)
Lemma temp_series_example_misses_5_6_7 :
  length frames10 = 10%nat /\ black_only_at 4 frames10 /\
  Forall (fun n => keeps frames10 3 n = true) [5; 6; 7] /\
  ~ (Forall (fun n => ~ In n (kept_offsets frames10 3)) [2; 3; 4] /\
     Forall (fun n => In n (kept_offsets frames10 3)) [0; 1; 5; 6; 7]).
Proof.
  split; [reflexivity|]. split; [apply frames10_black_only_at_4|].
  split; [repeat constructor|].
  intros [_ H]. rewrite Forall_forall in H.
  assert (H5 : In 5 (kept_offsets frames10 3)) by (apply H; simpl; tauto).
  vm_compute in H5. intuition discriminate.
Qed.

(** With ten frames, the one at index 4 black, and a window size of 3, the
    offsets run over are 0 to 4; those of 2, 3 and 4 are dropped and the
    output is the two windows at the offsets 0 and 1. *)
Lemma temp_series_ten_frames_output (X : list frame) :
  length X = 10%nat -> black_only_at 4 X ->
  offsets X 3 = [0; 1; 2; 3; 4] /\
  kept_offsets X 3 = [0; 1] /\
  temp_series X 3 = [Py.slice X 0 3; Py.slice X 1 4].
Proof.
  intros Hlen Hblack.
  assert (Hb : forall i, (i < 10)%nat ->
             is_completely_black (nth i X []) = (i =? 4)%nat).
  { intros i Hi. apply black_only_at_bool; [assumption|lia]. }
  destruct X
    as [|f0 [|f1 [|f2 [|f3 [|f4 [|f5 [|f6 [|f7 [|f8 [|f9 [|? ?]]]]]]]]]]];
    try discriminate Hlen.
  pose proof (Hb 0%nat ltac:(lia)) as H0.
  pose proof (Hb 1%nat ltac:(lia)) as H1.
  pose proof (Hb 2%nat ltac:(lia)) as H2.
  pose proof (Hb 3%nat ltac:(lia)) as H3.
  pose proof (Hb 4%nat ltac:(lia)) as H4.
  pose proof (Hb 5%nat ltac:(lia)) as H5.
  pose proof (Hb 6%nat ltac:(lia)) as H6.
  simpl in H0, H1, H2, H3, H4, H5, H6.
  assert (Hoff : offsets [f0; f1; f2; f3; f4; f5; f6; f7; f8; f9] 3
                 = [0; 1; 2; 3; 4]) by reflexivity.
  split; [exact Hoff|].
  assert (Hkept : kept_offsets [f0; f1; f2; f3; f4; f5; f6; f7; f8; f9] 3
                  = [0; 1]).
  { unfold kept_offsets. rewrite Hoff.
    unfold keeps, window, Py.any, Py.slice. simpl.
    rewrite H0, H1, H2, H3, H4, H5, H6. reflexivity. }
  split; [exact Hkept|].
  unfold temp_series. rewrite Hkept. reflexivity.
Qed.

(** C6, amended. With ten frames, the one at index 4 black, and a window
    size of 3, the windows starting at the offsets 2, 3 and 4 are excluded
    and the windows starting at the offsets 0 and 1 are included. *)
Theorem temp_series_ten_frames (X : list frame) :
  length X = 10%nat -> black_only_at 4 X ->
  Forall (fun n => ~ In n (kept_offsets X 3)) [2; 3; 4] /\
  Forall (fun n => In n (kept_offsets X 3) /\
                   In (window X 3 n) (temp_series X 3)) [0; 1].
Proof.
  intros Hlen Hblack.
  destruct (temp_series_ten_frames_output X Hlen Hblack) as (_ & Hkept & Hout).
  unfold temp_series. rewrite Hkept. split.
  - repeat (apply Forall_cons; [simpl; intuition discriminate|]).
    constructor.
  - repeat (apply Forall_cons; [split; simpl; auto|]).
    constructor.
Qed.

Lemma temp_series_ten_frames_witness :
  length frames10 = 10%nat /\ black_only_at 4 frames10 /\
  Forall (fun n => ~ In n (kept_offsets frames10 3)) [2; 3; 4] /\
  Forall (fun n => In n (kept_offsets frames10 3) /\
                   In (window frames10 3 n) (temp_series frames10 3)) [0; 1].
Proof.
  split; [reflexivity|]. split; [apply frames10_black_only_at_4|].
  apply (temp_series_ten_frames frames10 eq_refl frames10_black_only_at_4).
Defined.

(** ** The train and validation split *)

Section SplitProperties.

Context {scan : Type}.
Implicit Types abnormal_scans normal_scans : array scan.

Lemma const_labels (c : Z) (a : array scan) :
  map (fun _ => c) (Py.range 0 (NumPyAxis0.len a))
  = repeat c (length (examples a)).
Proof.
  unfold Py.range, NumPyAxis0.len, Py.len. rewrite map_map.
  replace (Z.to_nat (Z.of_nat (length (examples a)) - 0))
    with (length (examples a)) by lia.
  generalize 0%nat. induction (length (examples a)) as [|n IH]; intros s;
    simpl.
  - reflexivity.
  - now rewrite IH.
Qed.

Lemma firstn_repeat {A} (c : A) k n :
  firstn k (repeat c n) = repeat c (Nat.min k n).
Proof.
  revert n. induction k as [|k IH]; intros [|n]; simpl; try reflexivity.
  now rewrite IH.
Qed.

Lemma skipn_repeat {A} (c : A) k n :
  skipn k (repeat c n) = repeat c (n - k).
Proof.
  revert n. induction k as [|k IH]; intros [|n]; simpl; try reflexivity.
  apply IH.
Qed.

Lemma combine_repeat {A B} (l : list A) (c : B) n :
  n = length l -> combine l (repeat c n) = map (fun s => (s, c)) l.
Proof.
  intros ->. induction l as [|x l IH]; simpl; [reflexivity|].
  now rewrite IH.
Qed.

Lemma combine_app {A B} (l1 l2 : list A) (m1 m2 : list B) :
  length l1 = length m1 ->
  combine (l1 ++ l2) (m1 ++ m2) = combine l1 m1 ++ combine l2 m2.
Proof.
  revert m1. induction l1 as [|x l1 IH]; intros [|y m1] H;
    simpl in *; try discriminate; [reflexivity|].
  rewrite IH; [reflexivity|lia].
Qed.

(** [np.concatenate] returns exactly for arrays whose examples have one
    shape. *)
Lemma concatenate_returns {A} (a b : array A) :
  example_shape a = example_shape b ->
  NumPyAxis0.concatenate a b
  = Some {| example_shape := example_shape a;
            examples := examples a ++ examples b |}.
Proof.
  intros H. unfold NumPyAxis0.concatenate.
  destruct (list_eq_dec Nat.eq_dec (example_shape a) (example_shape b));
    [reflexivity|contradiction].
Qed.

Lemma concatenate_raises {A} (a b : array A) :
  example_shape a <> example_shape b -> NumPyAxis0.concatenate a b = None.
Proof.
  intros H. unfold NumPyAxis0.concatenate.
  destruct (list_eq_dec Nat.eq_dec (example_shape a) (example_shape b));
    [contradiction|reflexivity].
Qed.

(** The label arrays always concatenate: they have a single axis. *)
Lemma y_train_returns abnormal_scans normal_scans :
  y_train abnormal_scans normal_scans
  = Some {| example_shape := [];
            examples :=
              repeat 1 (Nat.min 70 (length (examples abnormal_scans)))
              ++ repeat 0 (Nat.min 70 (length (examples normal_scans))) |}.
Proof.
  unfold y_train. rewrite concatenate_returns by reflexivity.
  unfold NumPyAxis0.upto, abnormal_labels, normal_labels, np_array_labels,
    Py.upto. cbn [example_shape examples].
  now rewrite !const_labels, !firstn_repeat.
Qed.

Lemma y_val_returns abnormal_scans normal_scans :
  y_val abnormal_scans normal_scans
  = Some {| example_shape := [];
            examples :=
              repeat 1 (length (examples abnormal_scans) - 70)
              ++ repeat 0 (length (examples normal_scans) - 70) |}.
Proof.
  unfold y_val. rewrite concatenate_returns by reflexivity.
  unfold NumPyAxis0.from, abnormal_labels, normal_labels, np_array_labels,
    Py.from. cbn [example_shape examples].
  now rewrite !const_labels, !skipn_repeat.
Qed.

(** The example arrays concatenate when the scans of the two classes have
    one shape, and only then. *)
Lemma x_train_returns abnormal_scans normal_scans :
  example_shape abnormal_scans = example_shape normal_scans ->
  x_train abnormal_scans normal_scans
  = Some {| example_shape := example_shape abnormal_scans;
            examples := firstn 70 (examples abnormal_scans)
                        ++ firstn 70 (examples normal_scans) |}.
Proof. intros H. unfold x_train. now rewrite concatenate_returns. Qed.

Lemma x_val_returns abnormal_scans normal_scans :
  example_shape abnormal_scans = example_shape normal_scans ->
  x_val abnormal_scans normal_scans
  = Some {| example_shape := example_shape abnormal_scans;
            examples := skipn 70 (examples abnormal_scans)
                        ++ skipn 70 (examples normal_scans) |}.
Proof. intros H. unfold x_val. now rewrite concatenate_returns. Qed.

Lemma split_returns abnormal_scans normal_scans :
  example_shape abnormal_scans = example_shape normal_scans ->
  split abnormal_scans normal_scans
  = Some ({| example_shape := example_shape abnormal_scans;
             examples := firstn 70 (examples abnormal_scans)
                         ++ firstn 70 (examples normal_scans) |},
          {| example_shape := [];
             examples :=
               repeat 1 (Nat.min 70 (length (examples abnormal_scans)))
               ++ repeat 0 (Nat.min 70 (length (examples normal_scans))) |},
          {| example_shape := example_shape abnormal_scans;
             examples := skipn 70 (examples abnormal_scans)
                         ++ skipn 70 (examples normal_scans) |},
          {| example_shape := [];
             examples :=
               repeat 1 (length (examples abnormal_scans) - 70)
               ++ repeat 0 (length (examples normal_scans) - 70) |}).
Proof.
  intros H. unfold split.
  now rewrite (x_train_returns _ _ H), y_train_returns,
    (x_val_returns _ _ H), y_val_returns.
Qed.

(** The cell raises exactly when the scans of the two classes differ in
    shape; for the arrays the notebook builds, when exactly one of the
    classes has no scan. *)
Lemma split_raises abnormal_scans normal_scans :
  example_shape abnormal_scans <> example_shape normal_scans ->
  x_train abnormal_scans normal_scans = None /\
  x_val abnormal_scans normal_scans = None /\
  split abnormal_scans normal_scans = None.
Proof.
  intros H. unfold split, x_train, x_val.
  rewrite !concatenate_raises by exact H. repeat split.
Qed.

Lemma np_array_scans_shape (abnormal normal : list scan) :
  example_shape (np_array_scans abnormal)
  = example_shape (np_array_scans normal)
  <-> (abnormal = [] <-> normal = []).
Proof.
  destruct abnormal, normal; simpl; split; intros H;
    try reflexivity; try discriminate.
  - destruct H as [H _]. discriminate (H eq_refl).
  - destruct H as [_ H]. discriminate (H eq_refl).
  - split; discriminate.
Qed.

(** C7, amended. When the scans of the two classes have one shape, the
    training examples are the first 70 abnormal scans followed by the
    first 70 normal scans, and the validation examples are the remaining
    abnormal scans followed by the remaining normal scans; position by
    position each example keeps the rank it had in its class (nothing is
    shuffled). *)
Theorem split_by_slicing abnormal_scans normal_scans :
  let abnormal := examples abnormal_scans in
  let normal := examples normal_scans in
  let na := length abnormal in
  let nn := length normal in
  example_shape abnormal_scans = example_shape normal_scans ->
  exists train validation,
    x_train abnormal_scans normal_scans = Some train
    /\ x_val abnormal_scans normal_scans = Some validation
    /\ examples train = firstn 70 abnormal ++ firstn 70 normal
    /\ examples validation = skipn 70 abnormal ++ skipn 70 normal
    /\ length (examples train) = (Nat.min 70 na + Nat.min 70 nn)%nat
    /\ (forall i, (i < Nat.min 70 na)%nat ->
          nth_error (examples train) i = nth_error abnormal i)
    /\ (forall j, (j < Nat.min 70 nn)%nat ->
          nth_error (examples train) (Nat.min 70 na + j)
          = nth_error normal j)
    /\ length (examples validation) = ((na - 70) + (nn - 70))%nat
    /\ (forall i, (i < na - 70)%nat ->
          nth_error (examples validation) i = nth_error abnormal (70 + i))
    /\ (forall j, (j < nn - 70)%nat ->
          nth_error (examples validation) ((na - 70) + j)
          = nth_error normal (70 + j)).
Proof.
  intros abnormal normal na nn Hshape.
  rewrite (x_train_returns _ _ Hshape), (x_val_returns _ _ Hshape).
  do 2 eexists. do 2 (split; [reflexivity|]). cbn [examples].
  fold abnormal normal. repeat split.
  - rewrite length_app, !length_firstn. reflexivity.
  - intros i Hi. rewrite nth_error_app1 by (rewrite length_firstn; exact Hi).
    rewrite nth_error_firstn.
    destruct (Nat.ltb_spec i 70); [reflexivity|lia].
  - intros j Hj.
    rewrite nth_error_app2 by (rewrite length_firstn; fold na; lia).
    rewrite length_firstn. fold na.
    replace (Nat.min 70 na + j - Nat.min 70 na)%nat with j by lia.
    rewrite nth_error_firstn.
    destruct (Nat.ltb_spec j 70); [reflexivity|lia].
  - rewrite length_app, !length_skipn. reflexivity.
  - intros i Hi. rewrite nth_error_app1 by (rewrite length_skipn; exact Hi).
    apply nth_error_skipn.
  - intros j Hj.
    rewrite nth_error_app2 by (rewrite length_skipn; fold na; lia).
    rewrite length_skipn. fold na.
    replace (na - 70 + j - (na - 70))%nat with j by lia.
    apply nth_error_skipn.
Qed.

(** C9, amended. When the scans of the two classes have one shape, the
    cell returns and examples and labels are aligned: the training arrays
    have the same length, and pairing each training example with the
    label at its index gives the first 70 abnormal scans each with label
    1, followed by the first 70 normal scans each with label 0; likewise
    the validation arrays, over the remaining scans of each class. *)
Theorem split_labels_aligned abnormal_scans normal_scans :
  let abnormal := examples abnormal_scans in
  let normal := examples normal_scans in
  example_shape abnormal_scans = example_shape normal_scans ->
  exists x_train y_train x_val y_val,
    split abnormal_scans normal_scans
    = Some (x_train, y_train, x_val, y_val)
    /\ length (examples x_train) = length (examples y_train)
    /\ combine (examples x_train) (examples y_train)
       = map (fun s => (s, 1)) (firstn 70 abnormal)
         ++ map (fun s => (s, 0)) (firstn 70 normal)
    /\ length (examples x_val) = length (examples y_val)
    /\ combine (examples x_val) (examples y_val)
       = map (fun s => (s, 1)) (skipn 70 abnormal)
         ++ map (fun s => (s, 0)) (skipn 70 normal).
Proof.
  intros abnormal normal Hshape. rewrite (split_returns _ _ Hshape).
  do 4 eexists. split; [reflexivity|]. cbn [examples].
  fold abnormal normal. repeat split.
  - rewrite !length_app, !repeat_length, !length_firstn. reflexivity.
  - rewrite combine_app by (rewrite repeat_length, length_firstn; reflexivity).
    rewrite !combine_repeat by (rewrite length_firstn; reflexivity).
    reflexivity.
  - rewrite !length_app, !repeat_length, !length_skipn. reflexivity.
  - rewrite combine_app by (rewrite repeat_length, length_skipn; reflexivity).
    rewrite !combine_repeat by (rewrite length_skipn; reflexivity).
    reflexivity.
Qed.

End SplitProperties.

(** Two classes of 72 and 71 scans, named by numbers: two abnormal scans
    and one normal scan are left for validation. *)
Example split_72_71 :
  let abnormal_scans := np_array_scans (seq 0 72) in
  let normal_scans := np_array_scans (seq 100 71) in
  option_map examples (x_train abnormal_scans normal_scans)
  = Some (seq 0 70 ++ seq 100 70) /\
  option_map examples (x_val abnormal_scans normal_scans)
  = Some [70; 71; 170]%nat /\
  option_map examples (y_val abnormal_scans normal_scans) = Some [1; 1; 0].
Proof. repeat split. Qed.

(** C7, as stated, fails: with no abnormal scan and three normal scans,
    [np.array([])] has the shape (0,) and the array of the normal scans
    four axes, and [np.concatenate] raises for the training set and for
    the validation set. *)
Lemma split_one_class_empty :
  let abnormal_scans := np_array_scans (@nil nat) in
  let normal_scans := np_array_scans [100; 101; 102]%nat in
  x_train abnormal_scans normal_scans = None /\
  x_val abnormal_scans normal_scans = None.
Proof. split; reflexivity. Qed.

(** C9, as stated, fails: with two abnormal scans and no normal scan the
    cell raises at its first assignment, and there are no arrays of
    examples and labels to be aligned. *)
Lemma split_no_normal_scan :
  split (np_array_scans [1; 2]%nat) (np_array_scans (@nil nat)) = None.
Proof. reflexivity. Qed.

Lemma split_by_slicing_witness :
  let abnormal_scans := np_array_scans (seq 0 72) in
  let normal_scans := np_array_scans (seq 100 71) in
  exists train validation,
    x_train abnormal_scans normal_scans = Some train /\
    x_val abnormal_scans normal_scans = Some validation /\
    examples train = seq 0 70 ++ seq 100 70 /\
    examples validation = [70; 71; 170]%nat.
Proof.
  intros abnormal_scans normal_scans.
  destruct (split_by_slicing abnormal_scans normal_scans eq_refl)
    as (train & validation & Ht & Hv & Het & Hev & _).
  exists train, validation.
  split; [exact Ht|]. split; [exact Hv|]. split; [exact Het|exact Hev].
Defined.

Lemma split_labels_aligned_witness :
  let abnormal_scans := np_array_scans (seq 0 72) in
  let normal_scans := np_array_scans (seq 100 71) in
  exists x_train y_train x_val y_val,
    split abnormal_scans normal_scans
    = Some (x_train, y_train, x_val, y_val) /\
    combine (examples x_val) (examples y_val)
    = [(70%nat, 1); (71%nat, 1); (170%nat, 0)].
Proof.
  intros abnormal_scans normal_scans.
  destruct (split_labels_aligned abnormal_scans normal_scans eq_refl)
    as (xt & yt & xv & yv & Hs & _ & _ & _ & Hc).
  exists xt, yt, xv, yv. split; [exact Hs|exact Hc].
Defined.
(** ** Rounding *)

Local Open Scope Q_scope.

(** *** The nearest integer *)

#[local] Instance round_half_even_proper :
  Proper (Qeq ==> eq) round_half_even.
Proof.
  intros x y H. unfold round_half_even.
  rewrite <- (Qfloor_comp x y H).
  assert (Hc : (x - inject_Z (Qfloor x) ?= 1 # 2)
               = (y - inject_Z (Qfloor x) ?= 1 # 2)).
  { apply Qcompare_comp; [|reflexivity].
    unfold Qminus. apply Qplus_comp; [exact H|reflexivity]. }
  rewrite Hc. reflexivity.
Qed.

Lemma round_half_even_bounds x :
  inject_Z (round_half_even x) - (1 # 2) <= x
  <= inject_Z (round_half_even x) + (1 # 2).
Proof.
  unfold round_half_even.
  pose proof (Qfloor_le x) as Hlo. pose proof (Qlt_floor x) as Hhi.
  rewrite inject_Z_plus in Hhi. change (inject_Z 1) with 1 in Hhi.
  destruct (Qcompare_spec (x - inject_Z (Qfloor x)) (1 # 2)) as [E|E|E].
  - destruct (Z.even (Qfloor x)); rewrite ?inject_Z_plus;
      change (inject_Z 1) with 1; lra.
  - lra.
  - rewrite inject_Z_plus. change (inject_Z 1) with 1. lra.
Qed.

Lemma Qfloor_unique x z : inject_Z z <= x < inject_Z z + 1 -> Qfloor x = z.
Proof.
  intros [Hlo Hhi].
  pose proof (Qfloor_le x) as H1. pose proof (Qlt_floor x) as H2.
  rewrite inject_Z_plus in H2. change (inject_Z 1) with 1 in H2.
  assert (inject_Z z < inject_Z (Qfloor x) + 1) by lra.
  assert (inject_Z (Qfloor x) < inject_Z z + 1) by lra.
  change 1 with (inject_Z 1) in *. rewrite <- inject_Z_plus in *.
  rewrite <- Zlt_Qlt in *. lia.
Qed.

Lemma inject_Z_pred z : inject_Z (z - 1) == inject_Z z - 1.
Proof. unfold Z.sub. rewrite inject_Z_plus, inject_Z_opp. reflexivity. Qed.

Lemma round_half_even_near x z :
  Qabs (x - inject_Z z) < 1 # 2 -> round_half_even x = z.
Proof.
  intros H. apply Qabs_Qlt_condition in H. destruct H as [H1 H2].
  unfold round_half_even.
  destruct (Qlt_le_dec x (inject_Z z)) as [Hlt|Hge].
  - assert (Hf : Qfloor x = (z - 1)%Z).
    { apply Qfloor_unique. rewrite inject_Z_pred. lra. }
    rewrite Hf. pose proof (inject_Z_pred z) as Hp.
    destruct (Qcompare_spec (x - inject_Z (z - 1)) (1 # 2)) as [E|E|E].
    + lra.
    + lra.
    + lia.
  - assert (Hf : Qfloor x = z) by (apply Qfloor_unique; lra).
    rewrite Hf.
    destruct (Qcompare_spec (x - inject_Z z) (1 # 2)) as [E|E|E].
    + lra.
    + reflexivity.
    + lra.
Qed.

Lemma round_half_even_Z z : round_half_even (inject_Z z) = z.
Proof.
  apply round_half_even_near.
  assert (H : inject_Z z - inject_Z z == 0) by ring.
  rewrite H. reflexivity.
Qed.

Lemma round_half_even_monotone x y :
  x <= y -> (round_half_even x <= round_half_even y)%Z.
Proof.
  intros Hxy. pose proof (Qfloor_resp_le _ _ Hxy) as Hf.
  unfold round_half_even.
  destruct (Z.eq_dec (Qfloor x) (Qfloor y)) as [Heq|Hne].
  - rewrite <- Heq.
    destruct (Qcompare_spec (x - inject_Z (Qfloor x)) (1 # 2));
      destruct (Qcompare_spec (y - inject_Z (Qfloor x)) (1 # 2));
      try (destruct (Z.even (Qfloor x))); try lia; exfalso; lra.
  - assert (Qfloor x + 1 <= Qfloor y)%Z by lia.
    destruct (x - inject_Z (Qfloor x) ?= 1 # 2);
      destruct (y - inject_Z (Qfloor y) ?= 1 # 2);
      try (destruct (Z.even (Qfloor x))); try (destruct (Z.even (Qfloor y)));
      lia.
Qed.

(** *** Powers of two *)

Lemma pow2_pos e : 0 < pow2 e.
Proof. apply Qpower_0_lt. reflexivity. Qed.

Lemma pow2_add a b : pow2 (a + b) == pow2 a * pow2 b.
Proof. apply Qpower_plus. discriminate. Qed.

Lemma pow2_opp a : pow2 (- a) * pow2 a == 1.
Proof.
  rewrite <- pow2_add. replace (- a + a)%Z with 0%Z by lia. reflexivity.
Qed.

Lemma pow2_le a b : (a <= b)%Z -> pow2 a <= pow2 b.
Proof. intros H. apply Qpower_le_compat_l; [exact H|discriminate]. Qed.

Lemma pow2_lt_inv a b : pow2 a < pow2 b -> (a < b)%Z.
Proof.
  intros H. apply (Qpower_lt_compat_l_inv 2); [exact H|reflexivity].
Qed.

Lemma pow2_Z e : (0 <= e)%Z -> pow2 e == inject_Z (2 ^ e).
Proof.
  intros H. unfold pow2. rewrite Zpower_Qpower by exact H. reflexivity.
Qed.

(** *** The exponent of a positive number *)

Lemma Qnum_over_den x : x * inject_Z (QDen x) == inject_Z (Qnum x).
Proof.
  destruct x as [n d]. unfold Qeq. simpl. rewrite Pos.mul_1_r. ring.
Qed.

Lemma exponent_spec x :
  0 < x -> pow2 (exponent x) <= x < pow2 (exponent x + 1).
Proof.
  intros Hx.
  assert (Hn : (0 < Qnum x)%Z).
  { destruct x as [n d]. unfold Qlt in Hx. simpl in *. lia. }
  pose proof (Pos2Z.is_pos (Qden x)) as Hd.
  pose proof (Qnum_over_den x) as Hs.
  set (n := Qnum x) in *. set (d := Z.pos (Qden x)) in *.
  assert (Hdq : inject_Z 0 < inject_Z d) by (rewrite <- Zlt_Qlt; exact Hd).
  change (inject_Z 0) with 0 in Hdq.
  destruct (Z.log2_spec n Hn) as [Hn1 Hn2].
  destruct (Z.log2_spec d Hd) as [Hd1 Hd2].
  pose proof (Z.log2_nonneg n) as Ha. pose proof (Z.log2_nonneg d) as Hb.
  set (a := Z.log2 n) in *. set (b := Z.log2 d) in *.
  rewrite Zle_Qle, <- pow2_Z in Hn1, Hd1 by lia.
  rewrite Zlt_Qlt, <- pow2_Z in Hn2, Hd2 by lia.
  unfold Z.succ in *.
  (* x lies strictly between 2^(a-b-1) and 2^(a-b+1) *)
  assert (Hlo : pow2 (a - b - 1) < x).
  { apply (Qmult_lt_r _ _ (inject_Z d) Hdq). rewrite Hs.
    apply Qlt_le_trans with (pow2 (a - b - 1) * pow2 (b + 1)).
    - apply Qmult_lt_l; [apply pow2_pos|exact Hd2].
    - rewrite <- pow2_add. replace (a - b - 1 + (b + 1))%Z with a by lia.
      exact Hn1. }
  assert (Hhi : x < pow2 (a - b + 1)).
  { apply (Qmult_lt_r _ _ (inject_Z d) Hdq). rewrite Hs.
    apply Qlt_le_trans with (pow2 (a - b + 1) * pow2 b).
    - rewrite <- pow2_add. replace (a - b + 1 + b)%Z with (a + 1)%Z by lia.
      exact Hn2.
    - apply Qmult_le_l; [apply pow2_pos|exact Hd1]. }
  (* the test compares x with 2^(a-b) *)
  assert (Htest : (d * 2 ^ Z.max 0 (a - b) <= n * 2 ^ Z.max 0 (- (a - b)))%Z
                  <-> pow2 (a - b) <= x).
  { rewrite Zle_Qle, !inject_Z_mult, <- !pow2_Z by lia.
    assert (Hm : pow2 (Z.max 0 (a - b))
                 == pow2 (a - b) * pow2 (Z.max 0 (- (a - b)))).
    { rewrite <- pow2_add. f_equiv. lia. }
    rewrite Hm, <- Hs.
    set (P := pow2 (Z.max 0 (- (a - b)))).
    assert (HP : 0 < P) by apply pow2_pos.
    assert (Hre : inject_Z d * (pow2 (a - b) * P)
                  == pow2 (a - b) * (inject_Z d * P)) by ring.
    assert (Hre' : x * inject_Z d * P == x * (inject_Z d * P)) by ring.
    rewrite Hre, Hre'.
    apply Qmult_le_r. apply Qmult_lt_0_compat; assumption. }
  unfold exponent. fold n d a b.
  destruct (Z.leb_spec (d * 2 ^ Z.max 0 (a - b)) (n * 2 ^ Z.max 0 (- (a - b))))
    as [Hle|Hgt].
  - apply Htest in Hle. split; assumption.
  - replace (a - b - 1 + 1)%Z with (a - b)%Z by lia. split.
    + apply Qlt_le_weak. exact Hlo.
    + apply Qnot_le_lt. intros Hc. apply Htest in Hc. lia.
Qed.

Lemma exponent_unique x e :
  pow2 e <= x < pow2 (e + 1) -> exponent x = e.
Proof.
  intros [Hlo Hhi].
  assert (Hx : 0 < x).
  { apply Qlt_le_trans with (pow2 e); [apply pow2_pos|exact Hlo]. }
  destruct (exponent_spec x Hx) as [Hlo' Hhi'].
  assert (exponent x < e + 1)%Z.
  { apply pow2_lt_inv. apply Qle_lt_trans with x; assumption. }
  assert (e < exponent x + 1)%Z.
  { apply pow2_lt_inv. apply Qle_lt_trans with x; assumption. }
  lia.
Qed.

Lemma exponent_proper x y : 0 < x -> x == y -> exponent x = exponent y.
Proof.
  intros Hx Hxy. symmetry. apply exponent_unique.
  rewrite <- Hxy. apply exponent_spec. exact Hx.
Qed.

Lemma exponent_monotone x y : 0 < x -> x <= y -> (exponent x <= exponent y)%Z.
Proof.
  intros Hx Hxy.
  assert (Hy : 0 < y) by (apply Qlt_le_trans with x; assumption).
  destruct (exponent_spec x Hx) as [Hlo _].
  destruct (exponent_spec y Hy) as [_ Hhi].
  assert (exponent x < exponent y + 1)%Z.
  { apply pow2_lt_inv. apply Qle_lt_trans with x; [exact Hlo|].
    apply Qle_lt_trans with y; assumption. }
  lia.
Qed.

(** *** Rounding to [prec] bits *)

Section RoundBinary.

Variable prec : Z.
Hypothesis prec_24 : (24 <= prec)%Z.

Lemma round_positive_unfold x :
  round_positive prec x
  = inject_Z (round_half_even (scaled prec x)) * pow2 (last_place prec x).
Proof. reflexivity. Qed.

Lemma scaled_back x : scaled prec x * pow2 (last_place prec x) == x.
Proof.
  unfold scaled. rewrite <- Qmult_assoc, pow2_opp. apply Qmult_1_r.
Qed.

Lemma last_place_split x :
  pow2 (prec - 1) * pow2 (last_place prec x) == pow2 (exponent x).
Proof.
  rewrite <- pow2_add. unfold last_place.
  replace (prec - 1 + (exponent x - (prec - 1)))%Z with (exponent x) by lia.
  reflexivity.
Qed.

Lemma scaled_range x :
  0 < x -> pow2 (prec - 1) <= scaled prec x < pow2 prec.
Proof.
  intros Hx. destruct (exponent_spec x Hx) as [Hlo Hhi].
  pose proof (pow2_pos (last_place prec x)) as Hp.
  split.
  - apply (Qmult_le_r _ _ _ Hp).
    rewrite scaled_back, last_place_split. exact Hlo.
  - apply (Qmult_lt_r _ _ _ Hp).
    rewrite scaled_back.
    assert (H : pow2 prec * pow2 (last_place prec x) == pow2 (exponent x + 1)).
    { rewrite <- pow2_add. unfold last_place.
      replace (prec + (exponent x - (prec - 1)))%Z
        with (exponent x + 1)%Z by lia.
      reflexivity. }
    rewrite H. exact Hhi.
Qed.

Lemma round_half_even_pow2 e :
  (0 <= e)%Z -> inject_Z (round_half_even (pow2 e)) == pow2 e.
Proof.
  intros He.
  rewrite (round_half_even_proper _ _ (pow2_Z e He)), round_half_even_Z.
  symmetry. apply pow2_Z. exact He.
Qed.

Lemma round_positive_range x :
  0 < x ->
  pow2 (exponent x) <= round_positive prec x <= pow2 (exponent x + 1).
Proof.
  intros Hx. destruct (scaled_range x Hx) as [Hlo Hhi].
  pose proof (pow2_pos (last_place prec x)) as Hp.
  rewrite round_positive_unfold. split.
  - rewrite <- last_place_split. apply Qmult_le_compat_r; [|lra].
    rewrite <- (round_half_even_pow2 (prec - 1)) by lia.
    rewrite <- Zle_Qle. apply round_half_even_monotone. exact Hlo.
  - assert (H : pow2 (exponent x + 1) == pow2 prec * pow2 (last_place prec x)).
    { rewrite <- pow2_add. unfold last_place.
      replace (prec + (exponent x - (prec - 1)))%Z
        with (exponent x + 1)%Z by lia.
      reflexivity. }
    rewrite H. apply Qmult_le_compat_r; [|lra].
    rewrite <- (round_half_even_pow2 prec) by lia.
    rewrite <- Zle_Qle. apply round_half_even_monotone. lra.
Qed.

Lemma round_positive_proper x y :
  0 < x -> x == y -> round_positive prec x == round_positive prec y.
Proof.
  intros Hx Hxy. rewrite !round_positive_unfold.
  unfold scaled, last_place. rewrite <- (exponent_proper x y Hx Hxy).
  assert (Hm : x * pow2 (- (exponent x - (prec - 1)))
               == y * pow2 (- (exponent x - (prec - 1)))).
  { apply Qmult_comp; [exact Hxy|reflexivity]. }
  rewrite (round_half_even_proper _ _ Hm). reflexivity.
Qed.

Lemma round_positive_monotone x y :
  0 < x -> x <= y -> round_positive prec x <= round_positive prec y.
Proof.
  intros Hx Hxy.
  assert (Hy : 0 < y) by lra.
  pose proof (exponent_monotone x y Hx Hxy) as He.
  destruct (Z.eq_dec (exponent x) (exponent y)) as [Heq|Hne].
  - rewrite !round_positive_unfold. unfold scaled, last_place.
    rewrite <- Heq.
    pose proof (pow2_pos (exponent x - (prec - 1))) as Hp.
    pose proof (pow2_pos (- (exponent x - (prec - 1)))) as Hp'.
    apply Qmult_le_compat_r; [|lra].
    rewrite <- Zle_Qle. apply round_half_even_monotone.
    apply Qmult_le_compat_r; [exact Hxy|lra].
  - destruct (round_positive_range x Hx) as [_ Hhi].
    destruct (round_positive_range y Hy) as [Hlo _].
    apply Qle_trans with (pow2 (exponent x + 1)); [exact Hhi|].
    apply Qle_trans with (pow2 (exponent y)); [|exact Hlo].
    apply pow2_le. lia.
Qed.

Lemma round_positive_Z z :
  (0 < z < 2 ^ 24)%Z -> round_positive prec (inject_Z z) == inject_Z z.
Proof.
  intros [Hz0 Hz].
  assert (Hx : 0 < inject_Z z).
  { change 0 with (inject_Z 0). rewrite <- Zlt_Qlt. exact Hz0. }
  destruct (exponent_spec _ Hx) as [Hlo _].
  assert (He : (exponent (inject_Z z) < 24)%Z).
  { apply pow2_lt_inv. apply Qle_lt_trans with (inject_Z z); [exact Hlo|].
    rewrite (pow2_Z 24) by lia. rewrite <- Zlt_Qlt. exact Hz. }
  rewrite round_positive_unfold.
  set (s := last_place prec (inject_Z z)).
  assert (Hs : (s <= 0)%Z) by (unfold s, last_place; lia).
  assert (Hm : scaled prec (inject_Z z) == inject_Z (z * 2 ^ (- s))).
  { unfold scaled. fold s. rewrite inject_Z_mult, <- pow2_Z by lia.
    reflexivity. }
  rewrite (round_half_even_proper _ _ Hm), round_half_even_Z, <- Hm.
  apply scaled_back.
Qed.

Lemma round_positive_error x :
  0 < x -> Qabs (round_positive prec x - x) <= x * unit_roundoff.
Proof.
  intros Hx. rewrite round_positive_unfold.
  pose proof (round_half_even_bounds (scaled prec x)) as Hr.
  pose proof (scaled_back x) as Hb.
  pose proof (pow2_pos (last_place prec x)) as Hp.
  destruct (exponent_spec x Hx) as [Hlo _].
  pose proof (last_place_split x) as Hsplit.
  (* one unit in the last place is at most x * 2^-23 *)
  assert (Hulp : pow2 (last_place prec x) * inject_Z (2 ^ 23) <= x).
  { apply Qle_trans with (pow2 (exponent x)); [|exact Hlo].
    rewrite <- Hsplit, (Qmult_comm (pow2 (prec - 1))).
    apply Qmult_le_l; [exact Hp|].
    rewrite <- pow2_Z by lia. apply pow2_le. lia. }
  change (inject_Z (2 ^ 23)) with 8388608 in Hulp.
  set (r := inject_Z (round_half_even (scaled prec x))) in *.
  set (m := scaled prec x) in *. set (u := pow2 (last_place prec x)) in *.
  unfold unit_roundoff.
  apply Qabs_Qle_condition.
  assert (H1 : (r - m) * u <= (1 # 2) * u)
    by (apply Qmult_le_compat_r; lra).
  assert (H2 : - (1 # 2) * u <= (r - m) * u)
    by (apply Qmult_le_compat_r; lra).
  assert (H3 : (r - m) * u == r * u - x) by (rewrite <- Hb; ring).
  rewrite H3 in H1, H2. lra.
Qed.

Lemma round_binary_rounding : Rounding (round_binary prec).
Proof.
  split.
  - intros x y Hxy. unfold round_binary.
    rewrite <- (Qcompare_comp x y Hxy 0 0 (Qeq_refl 0)).
    destruct (Qcompare_spec x 0) as [H|H|H].
    + reflexivity.
    + apply Qopp_comp. apply round_positive_proper; [lra|].
      apply Qopp_comp. exact Hxy.
    + apply round_positive_proper; assumption.
  - intros x y Hxy. unfold round_binary.
    destruct (Qcompare_spec x 0) as [Hx|Hx|Hx];
      destruct (Qcompare_spec y 0) as [Hy|Hy|Hy]; try (exfalso; lra).
    + lra.
    + destruct (round_positive_range y Hy) as [Hlo _].
      pose proof (pow2_pos (exponent y)). lra.
    + assert (Hx' : 0 < - x) by lra.
      destruct (round_positive_range (- x) Hx') as [Hlo _].
      pose proof (pow2_pos (exponent (- x))). lra.
    + assert (Hy' : 0 < - y) by lra.
      assert (Hle : - y <= - x) by lra.
      pose proof (round_positive_monotone _ _ Hy' Hle). lra.
    + assert (Hx' : 0 < - x) by lra.
      destruct (round_positive_range (- x) Hx') as [Hlo _].
      destruct (round_positive_range y Hy) as [Hlo' _].
      pose proof (pow2_pos (exponent (- x))).
      pose proof (pow2_pos (exponent y)). lra.
    + apply round_positive_monotone; assumption.
  - intros z Hz. unfold round_binary.
    destruct (Qcompare_spec (inject_Z z) 0) as [H|H|H].
    + symmetry. exact H.
    + change 0 with (inject_Z 0) in H. rewrite <- Zlt_Qlt in H.
      rewrite <- inject_Z_opp, round_positive_Z by lia.
      rewrite inject_Z_opp. ring.
    + change 0 with (inject_Z 0) in H. rewrite <- Zlt_Qlt in H.
      apply round_positive_Z. lia.
  - intros x. unfold round_binary.
    destruct (Qcompare_spec x 0) as [H|H|H].
    + rewrite H. discriminate.
    + assert (Hx' : 0 < - x) by lra.
      pose proof (round_positive_error (- x) Hx') as He.
      rewrite (Qabs_neg x) by lra.
      apply Qabs_Qle_condition in He. apply Qabs_Qle_condition. lra.
    + rewrite (Qabs_pos x) by lra. apply round_positive_error. exact H.
Qed.

End RoundBinary.

#[export] Instance binary64_rounding : Rounding binary64.
Proof. apply round_binary_rounding. lia. Qed.

#[export] Instance binary32_rounding : Rounding binary32.
Proof. apply round_binary_rounding. lia. Qed.

(** *** Consequences of the laws *)

Section Accuracy.

Context (rnd : Q -> Q) `{!Rounding rnd}.

Lemma rnd_positive x :
  0 < x ->
  x * (1 - unit_roundoff) <= rnd x <= x * (1 + unit_roundoff).
Proof.
  intros Hx. pose proof (rnd_relative x) as H.
  rewrite (Qabs_pos x) in H by lra.
  apply Qabs_Qle_condition in H. lra.
Qed.

Lemma rnd_positive_lt x : 0 < x -> 0 < rnd x.
Proof.
  intros Hx. destruct (rnd_positive x Hx) as [H _].
  apply Qlt_le_trans with (x * (1 - unit_roundoff)); [|exact H].
  apply Qmult_lt_0_compat; [exact Hx|reflexivity].
Qed.

(** [n * (1 / (n / D))] lands within a half of [D]. *)
Lemma zoom_factor_accurate (n D : Q) :
  0 < n -> 0 < D <= 128 ->
  0 < rnd (n / D) /\
  Qabs (rnd (n * rnd (1 / rnd (n / D))) - D) < 1 # 2.
Proof.
  intros Hn [HD0 HD].
  set (a := n / D).
  assert (HaD : a * D == n) by (unfold a; field; lra).
  assert (Ha : 0 < a).
  { unfold a. apply Qlt_shift_div_l; lra. }
  destruct (rnd_positive a Ha) as [Hd1 Hd2].
  pose proof (rnd_positive_lt a Ha) as Hd.
  set (d := rnd a) in *.
  split; [exact Hd|].
  set (g := 1 / d).
  assert (Hdg : d * g == 1) by (unfold g; field; lra).
  assert (Hg : 0 < g).
  { unfold g. apply Qlt_shift_div_l; lra. }
  destruct (rnd_positive g Hg) as [Hf1 Hf2].
  pose proof (rnd_positive_lt g Hg) as Hf.
  set (f := rnd g) in *.
  assert (Ht : 0 < n * f) by (apply Qmult_lt_0_compat; assumption).
  destruct (rnd_positive (n * f) Ht) as [Hm1 Hm2].
  set (m := rnd (n * f)) in *.
  unfold unit_roundoff in *.
  (* A = a * g is close to 1 *)
  assert (HA1 : a * (1 - (1 # 16777216)) * g <= d * g)
    by (apply Qmult_le_compat_r; lra).
  assert (HA2 : d * g <= a * (1 + (1 # 16777216)) * g)
    by (apply Qmult_le_compat_r; lra).
  rewrite Hdg in HA1, HA2.
  (* F = a * f is close to A *)
  assert (HF1 : a * (g * (1 - (1 # 16777216))) <= a * f)
    by (apply Qmult_le_l; assumption).
  assert (HF2 : a * f <= a * (g * (1 + (1 # 16777216))))
    by (apply Qmult_le_l; assumption).
  set (A := a * g) in *.
  assert (E1 : a * (1 - (1 # 16777216)) * g == (1 - (1 # 16777216)) * A)
    by (unfold A; ring).
  assert (E2 : a * (1 + (1 # 16777216)) * g == (1 + (1 # 16777216)) * A)
    by (unfold A; ring).
  assert (E3 : a * (g * (1 - (1 # 16777216))) == (1 - (1 # 16777216)) * A)
    by (unfold A; ring).
  assert (E4 : a * (g * (1 + (1 # 16777216))) == (1 + (1 # 16777216)) * A)
    by (unfold A; ring).
  rewrite E1 in HA1. rewrite E2 in HA2. rewrite E3 in HF1. rewrite E4 in HF2.
  set (F := a * f) in *.
  assert (HFlo : 1 - (1 # 4194304) <= F) by lra.
  assert (HFhi : F <= 1 + (1 # 4194304)) by lra.
  (* n * f = D * F *)
  assert (Et : n * f == D * F) by (unfold F; rewrite <- HaD; ring).
  assert (Ht1 : D * (1 - (1 # 4194304)) <= D * F)
    by (apply Qmult_le_l; assumption).
  assert (Ht2 : D * F <= D * (1 + (1 # 4194304)))
    by (apply Qmult_le_l; assumption).
  rewrite Et in Hm1, Hm2.
  set (t := D * F) in *.
  apply Qabs_Qlt_condition. lra.
Qed.

End Accuracy.

(** ** Elements and arrays *)

Lemma less_fin x y : less (Fin x) (Fin y) = true <-> x < y.
Proof.
  simpl. rewrite negb_true_iff. split.
  - intros H. apply Qnot_le_lt. intros Hle.
    apply Qle_bool_iff in Hle. congruence.
  - intros H. destruct (Qle_bool y x) eqn:E; [|reflexivity].
    apply Qle_bool_iff in E. exfalso. apply (Qlt_not_le _ _ H E).
Qed.

Lemma less_fin_false x y : less (Fin x) (Fin y) = false <-> y <= x.
Proof. simpl. rewrite negb_false_iff. apply Qle_bool_iff. Qed.

Lemma Forall2_map_right {A B} (P : A -> B -> Prop) (f : A -> B) l :
  (forall x, In x l -> P x (f x)) -> Forall2 P l (map f l).
Proof.
  induction l as [|x l IH]; intros H; simpl; constructor.
  - apply H. now left.
  - apply IH. intros y Hy. apply H. now right.
Qed.

Lemma same_refl a : same a a.
Proof. destruct a; simpl; auto. reflexivity. Qed.

(** The bounds of a comparison with an integer bound, as inequalities of
    rationals. *)
Ltac bounds :=
  repeat match goal with
         | H : less (Fin _) (Fin _) = true |- _ => apply less_fin in H
         | H : less (Fin _) (Fin _) = false |- _ => apply less_fin_false in H
         end;
  unfold inject_Z in *.

(** ** [normalize] *)

Section NormalizeProperties.

Context (float64 float32 : Q -> Q).

Lemma normalize_with_data min max volume :
  data (normalize_with float64 float32 min max volume)
  = map (normalize_element float64 float32 min max) (data volume).
Proof.
  unfold normalize_with, astype, assign_where, elementwise. simpl.
  rewrite !map_map. reflexivity.
Qed.

Lemma normalize_with_shape min max volume :
  shape (normalize_with float64 float32 min max volume) = shape volume.
Proof. reflexivity. Qed.

Lemma normalize_element_fin x :
  normalize_element float64 float32 (-1000) 400 (Fin x)
  = Fin (rescale float64 float32 (clipped x)).
Proof.
  unfold normalize_element, clip, clipped, rescale.
  destruct (less (Fin x) (of_int (-1000))) eqn:E1.
  - reflexivity.
  - destruct (greater (Fin x) (of_int 400)) eqn:E2; reflexivity.
Qed.

Lemma clipped_range x : -1000 <= clipped x <= 400.
Proof.
  unfold clipped, greater, of_int.
  destruct (less (Fin x) (Fin (inject_Z (-1000)))) eqn:E1;
    [|destruct (less (Fin (inject_Z 400)) (Fin x)) eqn:E2]; bounds; lra.
Qed.

Lemma clipped_low x : x <= -1000 -> clipped x == -1000.
Proof.
  intros H. unfold clipped, greater, of_int.
  destruct (less (Fin x) (Fin (inject_Z (-1000)))) eqn:E1;
    [|destruct (less (Fin (inject_Z 400)) (Fin x)) eqn:E2]; bounds; lra.
Qed.

Lemma clipped_high x : 400 <= x -> clipped x == 400.
Proof.
  intros H. unfold clipped, greater, of_int.
  destruct (less (Fin x) (Fin (inject_Z (-1000)))) eqn:E1;
    [|destruct (less (Fin (inject_Z 400)) (Fin x)) eqn:E2]; bounds; lra.
Qed.

Lemma clipped_inside x : -1000 <= x <= 400 -> clipped x = x.
Proof.
  intros H. unfold clipped, greater, of_int.
  destruct (less (Fin x) (Fin (inject_Z (-1000)))) eqn:E1;
    [|destruct (less (Fin (inject_Z 400)) (Fin x)) eqn:E2];
    bounds; try reflexivity; exfalso; lra.
Qed.

Context `{!Rounding float64} `{!Rounding float32}.

Lemma rnd_0 rnd `{!Rounding rnd} : rnd 0 == 0.
Proof. apply (rnd_integer 0). reflexivity. Qed.

Lemma rnd_1 rnd `{!Rounding rnd} : rnd 1 == 1.
Proof. apply (rnd_integer 1). reflexivity. Qed.

Lemma rnd_1400 rnd `{!Rounding rnd} : rnd 1400 == 1400.
Proof. apply (rnd_integer 1400). reflexivity. Qed.

Lemma rescale_range c :
  -1000 <= c <= 400 -> 0 <= rescale float64 float32 c <= 1.
Proof.
  intros [Hlo Hhi]. unfold rescale.
  assert (Hs : 0 <= float64 (c - (-1000)) <= 1400).
  { split.
    - rewrite <- (rnd_0 float64). apply rnd_monotone. lra.
    - rewrite <- (rnd_1400 float64). apply rnd_monotone. lra. }
  assert (Hd : 0 <= float64 (float64 (c - (-1000)) / 1400) <= 1).
  { split.
    - rewrite <- (rnd_0 float64) at 1. apply rnd_monotone.
      apply Qle_shift_div_l; lra.
    - rewrite <- (rnd_1 float64). apply rnd_monotone.
      apply Qle_shift_div_r; lra. }
  split.
  - rewrite <- (rnd_0 float32) at 1. apply rnd_monotone. apply Hd.
  - rewrite <- (rnd_1 float32). apply rnd_monotone. apply Hd.
Qed.

Lemma rescale_low c : c == -1000 -> rescale float64 float32 c == 0.
Proof.
  intros Hc. unfold rescale.
  assert (H0 : c - (-1000) == 0) by lra.
  rewrite H0, (rnd_0 float64).
  assert (H1 : 0 / 1400 == 0) by reflexivity.
  rewrite H1, (rnd_0 float64). apply rnd_0; assumption.
Qed.

Lemma rescale_high c : c == 400 -> rescale float64 float32 c == 1.
Proof.
  intros Hc. unfold rescale.
  assert (H0 : c - (-1000) == 1400) by lra.
  rewrite H0, (rnd_1400 float64).
  assert (H1 : 1400 / 1400 == 1) by reflexivity.
  rewrite H1, (rnd_1 float64). apply rnd_1; assumption.
Qed.

Lemma normalize_element_spec v :
  normalized v (normalize_element float64 float32 (-1000) 400 v).
Proof.
  unfold normalized. destruct v as [| | |x].
  - simpl. intuition congruence.
  - change (normalize_element float64 float32 (-1000) 400 NegInf)
      with (Fin (rescale float64 float32 (-1000))).
    split; [|split; [|split]]; simpl.
    + intros _. apply rescale_range. lra.
    + intros _. apply rescale_low. reflexivity.
    + tauto.
    + discriminate.
  - change (normalize_element float64 float32 (-1000) 400 PosInf)
      with (Fin (rescale float64 float32 400)).
    split; [|split; [|split]]; simpl.
    + intros _. apply rescale_range. lra.
    + tauto.
    + intros _. apply rescale_high. reflexivity.
    + discriminate.
  - rewrite normalize_element_fin.
    split; [|split; [|split]]; simpl.
    + intros _. apply rescale_range, clipped_range.
    + intros H. apply rescale_low, clipped_low. exact H.
    + intros H. apply rescale_high, clipped_high. exact H.
    + discriminate.
Qed.

(** C1, amended. [normalize] keeps the shape, and element by element:
    every input value other than NaN becomes a value of [[0, 1]]; every
    input value at or below -1000 becomes 0 and every input value at or
    above 400 becomes 1; NaN stays NaN. *)
Theorem normalize_range (volume : ndarray) :
  shape (normalize float64 float32 volume) = shape volume /\
  Forall2 normalized (data volume) (data (normalize float64 float32 volume)).
Proof.
  split; [reflexivity|].
  unfold normalize. rewrite normalize_with_data.
  apply Forall2_map_right. intros v _. apply normalize_element_spec.
Qed.

(** On a value of [[0, 1]] the clipping of [normalize] changes nothing. *)
Lemma normalize_element_unit x :
  0 <= x <= 1 ->
  normalize_element float64 float32 (-1000) 400 (Fin x)
  = Fin (float32 (float64 (float64 (x - (-1000)) / 1400))).
Proof.
  intros H. rewrite normalize_element_fin, clipped_inside by lra.
  reflexivity.
Qed.

Lemma rnd_nonneg rnd `{!Rounding rnd} x :
  0 <= x ->
  x * (1 - unit_roundoff) <= rnd x <= x * (1 + unit_roundoff).
Proof.
  intros Hx. pose proof (rnd_relative x) as H.
  rewrite (Qabs_pos x) in H by exact Hx.
  apply Qabs_Qle_condition in H. lra.
Qed.

(** The rescaling takes the values of [[0, 1]] into [[0.7, 0.72]]. *)
Lemma rescale_unit x :
  0 <= x <= 1 -> 7 # 10 <= rescale float64 float32 x <= 18 # 25.
Proof.
  intros [Hlo Hhi]. unfold rescale.
  set (s := float64 (x - (-1000))).
  assert (Hs : 1000 <= s <= 1001).
  { unfold s. split.
    - rewrite <- (rnd_integer (rnd := float64) 1000) by reflexivity.
      apply rnd_monotone. unfold inject_Z. lra.
    - rewrite <- (rnd_integer (rnd := float64) 1001) by reflexivity.
      apply rnd_monotone. unfold inject_Z. lra. }
  assert (Hq : 5 # 7 <= s / 1400 <= 143 # 200).
  { split.
    - apply Qle_shift_div_l; lra.
    - apply Qle_shift_div_r; lra. }
  set (q := s / 1400) in *.
  assert (Hd : q * (1 - unit_roundoff) <= float64 q
               <= q * (1 + unit_roundoff))
    by (apply (rnd_nonneg float64); lra).
  set (d := float64 q) in *.
  assert (Hd0 : 0 <= d) by (unfold unit_roundoff in Hd; lra).
  pose proof (rnd_nonneg float32 d Hd0) as Ho.
  unfold unit_roundoff in *. lra.
Qed.

(** C8, amended. [normalize] takes no clip bounds: they are fixed at
    -1000 and 400.  On a volume with values in [[0, 1]] it keeps the
    shape, clips nothing and takes each value [x] to [(x + 1000) / 1400],
    rounded, which lies in [[0.7, 0.72]]; so every value of the volume
    outside [[0.7, 0.72]] is changed. *)
Theorem normalize_unit_volume (volume : ndarray) :
  Forall (within 0 1) (data volume) ->
  shape (normalize float64 float32 volume) = shape volume /\
  Forall2 (fun v o => forall x, v = Fin x ->
             o = Fin (float32 (float64 (float64 (x - (-1000)) / 1400))) /\
             within (7 # 10) (18 # 25) o /\
             (~ within (7 # 10) (18 # 25) v -> ~ same v o))
          (data volume) (data (normalize float64 float32 volume)).
Proof.
  intros Hunit. rewrite Forall_forall in Hunit. split; [reflexivity|].
  unfold normalize. rewrite normalize_with_data.
  apply Forall2_map_right. intros v Hv x ->.
  specialize (Hunit _ Hv). simpl in Hunit.
  rewrite (normalize_element_unit x Hunit).
  pose proof (rescale_unit x Hunit) as Hr. unfold rescale in Hr.
  split; [reflexivity|]. split; [exact Hr|].
  simpl. intros Hout Hsame. apply Hout. rewrite Hsame. exact Hr.
Qed.

End NormalizeProperties.

(** C1, as stated, fails: the NaN of a volume comes out of [normalize] as
    NaN, which is no value of [[0, 1]]. *)
Lemma normalize_keeps_nan :
  is_volume (voxel_volume NaN) /\
  data (normalize binary64 binary32 (voxel_volume NaN)) = [NaN] /\
  ~ Forall (within 0 1) (data (normalize binary64 binary32 (voxel_volume NaN))).
Proof.
  split; [reflexivity|]. split; [reflexivity|].
  intros H. inversion H as [|v l Hv _]. exact Hv.
Qed.

Lemma normalize_range_witness :
  shape (normalize binary64 binary32 hu_volume) = shape hu_volume /\
  Forall2 normalized (data hu_volume)
          (data (normalize binary64 binary32 hu_volume)).
Proof. exact (normalize_range binary64 binary32 hu_volume). Defined.

(** What [normalize] makes of [hu_volume]. *)
Example normalize_hu_volume :
  Forall2 same
    (data (normalize binary64 binary32 hu_volume))
    [Fin 0; Fin 0; Fin (1 # 2); Fin (5991863 # 8388608);
     Fin 1; Fin 1; Fin 1; NaN].
Proof. vm_compute. repeat constructor. Qed.

(** C8, as stated, fails: the bounds -1000 and 400 of [normalize] cover
    the values of [unit_volume], all in [[0, 1]], and [normalize] changes
    every one of them. *)
Lemma normalize_changes_unit_volume :
  Forall (within 0 1) (data unit_volume) /\
  Forall (within (-1000) 400) (data unit_volume) /\
  Forall2 (fun v o => ~ same v o)
          (data unit_volume)
          (data (normalize binary64 binary32 unit_volume)).
Proof.
  split; [|split].
  - repeat constructor; discriminate.
  - repeat constructor; discriminate.
  - vm_compute. repeat constructor; discriminate.
Qed.

Lemma normalize_unit_volume_witness :
  Forall (within 0 1) (data unit_volume) /\
  shape (normalize binary64 binary32 unit_volume) = shape unit_volume /\
  Forall2 (fun v o => forall x, v = Fin x ->
             o = Fin (binary32 (binary64 (binary64 (x - (-1000)) / 1400))) /\
             within (7 # 10) (18 # 25) o /\
             (~ within (7 # 10) (18 # 25) v -> ~ same v o))
          (data unit_volume) (data (normalize binary64 binary32 unit_volume)).
Proof.
  assert (Hunit : Forall (within 0 1) (data unit_volume))
    by (repeat constructor; discriminate).
  split; [exact Hunit|].
  exact (normalize_unit_volume binary64 binary32 unit_volume Hunit).
Defined.

(** ** [resize_volume] *)

Section ResizeProperties.

Context (float64 float32 : Q -> Q).
Context (rotate_samples : Z -> ndarray -> list float).
Context (zoom_samples : list Q -> ndarray -> list float).

Lemma truediv_nonzero a b :
  ~ b == 0 -> truediv float64 a b = Some (float64 (a / b)).
Proof.
  intros Hb. unfold truediv. destruct (Qeq_bool b 0) eqn:E; [|reflexivity].
  apply Qeq_bool_iff in E. contradiction.
Qed.

Lemma truediv_zero a b : b == 0 -> truediv float64 a b = None.
Proof.
  intros Hb. unfold truediv. apply Qeq_bool_iff in Hb. now rewrite Hb.
Qed.

(** The three entries of the shape that [resize_volume] reads. *)
Lemma shape_at_volume (w h d : nat) :
  shape_at [w; h; d] (-1) = Some (inject_Z (Z.of_nat d)) /\
  shape_at [w; h; d] 0 = Some (inject_Z (Z.of_nat w)) /\
  shape_at [w; h; d] 1 = Some (inject_Z (Z.of_nat h)).
Proof. repeat split. Qed.

Lemma of_nat_positive n : (0 < n)%nat -> 0 < inject_Z (Z.of_nat n).
Proof.
  intros H. change 0 with (inject_Z 0). rewrite <- Zlt_Qlt. lia.
Qed.

Context `{!Rounding float64}.

(** One axis: from an axis of [n > 0] elements and the desired length
    [D], the two divisions return and the zoomed axis has length [D]. *)
Lemma zoom_axis (n : nat) (D : Z) :
  (0 < n)%nat -> (0 < D <= 128)%Z ->
  let ratio := float64 (inject_Z (Z.of_nat n) / inject_Z D) in
  let factor := float64 (1 / ratio) in
  truediv float64 (inject_Z (Z.of_nat n)) (inject_Z D) = Some ratio /\
  truediv float64 1 ratio = Some factor /\
  Z.to_nat (Py.round (float64 (inject_Z (Z.of_nat n) * factor)))
  = Z.to_nat D.
Proof.
  intros Hn [HD0 HD] ratio factor.
  pose proof (of_nat_positive n Hn) as Hn'.
  assert (HDq : 0 < inject_Z D <= 128).
  { change 0 with (inject_Z 0). change 128 with (inject_Z 128).
    rewrite <- Zlt_Qlt, <- Zle_Qle. lia. }
  destruct (zoom_factor_accurate float64 _ _ Hn' HDq) as [Hratio Hnear].
  fold ratio in Hratio, Hnear. fold factor in Hnear.
  split; [apply truediv_nonzero; lra|].
  split; [apply truediv_nonzero; lra|].
  unfold Py.round. f_equal. apply round_half_even_near. exact Hnear.
Qed.

(** An axis without elements: the second division raises. *)
Lemma zoom_axis_empty (D : Z) :
  (0 < D)%Z ->
  exists ratio,
    truediv float64 (inject_Z (Z.of_nat 0)) (inject_Z D) = Some ratio /\
    truediv float64 1 ratio = None.
Proof.
  intros HD.
  assert (HDq : 0 < inject_Z D).
  { change 0 with (inject_Z 0). rewrite <- Zlt_Qlt. exact HD. }
  exists (float64 (inject_Z (Z.of_nat 0) / inject_Z D)). split.
  - apply truediv_nonzero. lra.
  - apply truediv_zero.
    assert (H0 : inject_Z (Z.of_nat 0) / inject_Z D == 0).
    { change (inject_Z (Z.of_nat 0)) with 0. field. lra. }
    rewrite H0. apply (rnd_integer 0). reflexivity.
Qed.

(** What [resize_volume] returns for a volume whose three axes have at
    least one element each. *)
Lemma resize_volume_returns (img : ndarray) (w h d : nat) :
  shape img = [w; h; d] -> (0 < w)%nat -> (0 < h)%nat -> (0 < d)%nat ->
  resize_volume float64 rotate_samples zoom_samples img
  = Some {| shape := [128; 128; 64]%nat;
            data := zoom_samples
                      [float64 (1 / float64 (inject_Z (Z.of_nat w) / 128));
                       float64 (1 / float64 (inject_Z (Z.of_nat h) / 128));
                       float64 (1 / float64 (inject_Z (Z.of_nat d) / 64))]
                      {| shape := [w; h; d];
                         data := rotate_samples 90%Z img |} |}.
Proof.
  intros Hshape Hw Hh Hd.
  destruct (zoom_axis d 64 Hd ltac:(lia)) as (Hrd & Hfd & Hzd).
  destruct (zoom_axis w 128 Hw ltac:(lia)) as (Hrw & Hfw & Hzw).
  destruct (zoom_axis h 128 Hh ltac:(lia)) as (Hrh & Hfh & Hzh).
  destruct (shape_at_volume w h d) as (Sd & Sw & Sh).
  unfold resize_volume. rewrite Hshape, Sd, Sw, Sh. cbn [bind].
  change 64 with (inject_Z 64). change 128 with (inject_Z 128).
  rewrite Hrd, Hrw, Hrh. cbn [bind]. rewrite Hfd, Hfw, Hfh. cbn [bind].
  unfold ndimage_rotate. rewrite Hshape. cbn [length Nat.ltb Nat.leb bind].
  unfold ndimage_zoom. cbn [shape length Nat.eqb bind].
  cbn [shape zoom_shape combine map]. rewrite Hzw, Hzh, Hzd. reflexivity.
Qed.

(** C2, amended. For every volume whose three axes have at least one
    element each, [resize_volume] returns an array of shape
    (128, 128, 64). *)
Theorem resize_volume_shape (img : ndarray) (w h d : nat) :
  shape img = [w; h; d] -> (0 < w)%nat -> (0 < h)%nat -> (0 < d)%nat ->
  exists out,
    resize_volume float64 rotate_samples zoom_samples img = Some out /\
    shape out = [128; 128; 64]%nat.
Proof.
  intros Hshape Hw Hh Hd. eexists. split.
  - apply (resize_volume_returns img w h d); assumption.
  - reflexivity.
Qed.

(** A volume with an empty axis makes [resize_volume] raise. *)
Lemma resize_volume_empty_axis (img : ndarray) (w h d : nat) :
  shape img = [w; h; d] -> (w = 0 \/ h = 0 \/ d = 0)%nat ->
  resize_volume float64 rotate_samples zoom_samples img = None.
Proof.
  intros Hshape Hzero.
  destruct (shape_at_volume w h d) as (Sd & Sw & Sh).
  unfold resize_volume. rewrite Hshape, Sd, Sw, Sh. cbn [bind].
  change 64 with (inject_Z 64). change 128 with (inject_Z 128).
  assert (Hsome : forall (n : nat) D, (0 < D)%Z ->
            exists ratio,
              truediv float64 (inject_Z (Z.of_nat n)) (inject_Z D)
              = Some ratio /\
              (n = 0%nat -> truediv float64 1 ratio = None)).
  { intros n D HD. destruct n as [|n].
    - destruct (zoom_axis_empty D HD) as (r & Hr & Hnone).
      exists r. split; [exact Hr|]. intros _. exact Hnone.
    - eexists. split.
      + apply truediv_nonzero.
        assert (0 < inject_Z D)
          by (change 0 with (inject_Z 0); rewrite <- Zlt_Qlt; exact HD).
        lra.
      + discriminate. }
  destruct (Hsome d 64%Z ltac:(lia)) as (rd & Hrd & Hd).
  destruct (Hsome w 128%Z ltac:(lia)) as (rw & Hrw & Hw).
  destruct (Hsome h 128%Z ltac:(lia)) as (rh & Hrh & Hh).
  rewrite Hrd, Hrw, Hrh. cbn [bind].
  destruct (truediv float64 1 rd) as [fd|] eqn:Ed; [|reflexivity].
  cbn [bind].
  destruct (truediv float64 1 rw) as [fw|] eqn:Ew; [|reflexivity].
  cbn [bind].
  destruct (truediv float64 1 rh) as [fh|] eqn:Eh; [|reflexivity].
  exfalso. destruct Hzero as [Hz | [Hz | Hz]].
  - specialize (Hw Hz). congruence.
  - specialize (Hh Hz). congruence.
  - specialize (Hd Hz). congruence.
Qed.

(** [process_scan] returns an array of shape (128, 128, 64) for every scan
    whose axes have at least one element each; its samples are those of
    the interpolation of scipy. *)
Lemma process_scan_shape (volume : ndarray) (w h d : nat) :
  shape volume = [w; h; d] -> (0 < w)%nat -> (0 < h)%nat -> (0 < d)%nat ->
  exists out,
    process_scan float64 float32 rotate_samples zoom_samples volume
    = Some out /\
    shape out = [128; 128; 64]%nat /\
    exists zoom,
      data out
      = zoom_samples zoom
          {| shape := [w; h; d];
             data := rotate_samples 90%Z (normalize float64 float32 volume) |}.
Proof.
  intros Hshape Hw Hh Hd. unfold process_scan.
  assert (Hnorm : shape (normalize float64 float32 volume) = [w; h; d])
    by exact Hshape.
  rewrite (resize_volume_returns _ w h d Hnorm Hw Hh Hd). cbn [bind].
  eexists. split; [reflexivity|]. split; [reflexivity|].
  eexists. reflexivity.
Qed.

(** Where the values of [process_scan] come from: they lie in [[0, 1]] as
    soon as no voxel of the scan is NaN and both interpolations keep their
    samples within the bounds of the samples they start from.  Whether
    scipy does so is a matter of its kernels and of their arithmetic. *)
Lemma process_scan_range_from_kernels `{!Rounding float32}
  (volume : ndarray) (w h d : nat) :
  (forall angle input lo hi,
      Forall (within lo hi) (data input) ->
      Forall (within lo hi) (rotate_samples angle input)) ->
  (forall zoom input lo hi,
      Forall (within lo hi) (data input) ->
      Forall (within lo hi) (zoom_samples zoom input)) ->
  shape volume = [w; h; d] -> (0 < w)%nat -> (0 < h)%nat -> (0 < d)%nat ->
  ~ In NaN (data volume) ->
  exists out,
    process_scan float64 float32 rotate_samples zoom_samples volume
    = Some out /\
    shape out = [128; 128; 64]%nat /\
    Forall (within 0 1) (data out).
Proof.
  intros Hrot Hzoom Hshape Hw Hh Hd Hnan. unfold process_scan.
  assert (Hnorm : shape (normalize float64 float32 volume) = [w; h; d])
    by exact Hshape.
  rewrite (resize_volume_returns _ w h d Hnorm Hw Hh Hd). cbn [bind].
  eexists. split; [reflexivity|]. split; [reflexivity|].
  cbn [data]. apply Hzoom. cbn [data]. apply Hrot.
  unfold normalize. rewrite normalize_with_data.
  apply Forall_forall. intros o Ho. apply in_map_iff in Ho.
  destruct Ho as (v & <- & Hv).
  destruct (normalize_element_spec float64 float32 v) as [Hin _].
  apply Hin. intros ->. exact (Hnan Hv).
Qed.

End ResizeProperties.

(** C2, as stated, fails: a volume with an empty axis has three axes, and
    [resize_volume] raises ZeroDivisionError on it. *)
Lemma resize_volume_empty_volume :
  is_volume empty_volume /\
  resize_volume binary64 keep_samples keep_samples empty_volume = None.
Proof. split; reflexivity. Qed.

(** The factors and the zoomed shape for a scan of shape (100, 100, 50),
    in [float64]. *)
Example zoom_shape_100_100_50 :
  let factor n D := binary64 (1 / binary64 (inject_Z n / inject_Z D)) in
  zoom_shape binary64 [100; 100; 50]%nat
             [factor 100 128; factor 100 128; factor 50 64]%Z
  = [128; 128; 64]%nat.
Proof. vm_compute. reflexivity. Qed.

Lemma resize_volume_shape_witness :
  shape hu_volume = [2; 2; 2]%nat /\
  exists out,
    resize_volume binary64 keep_samples keep_samples hu_volume = Some out /\
    shape out = [128; 128; 64]%nat.
Proof.
  split; [reflexivity|].
  apply (resize_volume_shape binary64 keep_samples keep_samples
           hu_volume 2 2 2 eq_refl); lia.
Defined.

(** The scan of the end-to-end example, of shape (100, 100, 50): whatever
    its values, [process_scan] returns an array of shape (128, 128, 64). *)
Lemma process_scan_shape_100_100_50
  (rotate_samples : Z -> ndarray -> list float)
  (zoom_samples : list Q -> ndarray -> list float) (volume : ndarray) :
  shape volume = [100; 100; 50]%nat ->
  exists out,
    process_scan binary64 binary32 rotate_samples zoom_samples volume
    = Some out /\
    shape out = [128; 128; 64]%nat.
Proof.
  intros Hshape.
  destruct (process_scan_shape binary64 binary32 rotate_samples zoom_samples
              volume 100 100 50 Hshape) as (out & Hout & Hs & _); try lia.
  exists out. split; assumption.
Qed.

(** ** [rotate] *)

Section RotateProperties.

Context (rotate_samples : Z -> ndarray -> list float).

Lemma clip_0_1 s : clamped s (clip 0 1 s).
Proof.
  unfold clamped, clip, greater, of_int. destruct s as [| | |x].
  - split; [reflexivity|congruence].
  - split; [discriminate|]. intros _. vm_compute. split; discriminate.
  - split; [discriminate|]. intros _. vm_compute. split; discriminate.
  - split; [discriminate|]. intros _.
    destruct (less (Fin x) (Fin (inject_Z 0))) eqn:E1.
    + vm_compute. split; discriminate.
    + destruct (less (Fin (inject_Z 1)) (Fin x)) eqn:E2.
      * vm_compute. split; discriminate.
      * bounds. simpl. lra.
Qed.

Lemma scipy_rotate_by_data angle volume out :
  scipy_rotate_by rotate_samples angle volume = Some out ->
  shape out = shape volume /\
  data out = map (clip 0 1) (rotate_samples angle volume).
Proof.
  unfold scipy_rotate_by, ndimage_rotate.
  destruct (length (shape volume) <? 2)%nat; [discriminate|].
  cbn [bind]. intros [= <-].
  unfold assign_where, elementwise. simpl. rewrite map_map.
  split; reflexivity.
Qed.

Lemma random_choice_angles draw :
  exists angle, random_choice angles draw = Some angle /\ In angle angles.
Proof.
  unfold random_choice.
  destruct (nth_error angles (draw mod length angles)) as [angle|] eqn:E.
  - exists angle. split; [reflexivity|]. eapply nth_error_In. exact E.
  - apply nth_error_None in E.
    pose proof (Nat.mod_upper_bound draw (length angles)) as Hlt.
    simpl in *. lia.
Qed.

(** C5, amended. For every volume and every candidate angle the rotation
    returns an array of the shape of the input in which every sample of the
    interpolation other than NaN has been brought into [[0, 1]]; a NaN
    sample stays.  Whatever is drawn, [rotate] is the rotation by one of
    the candidate angles. *)
Theorem rotate_range (volume : ndarray) :
  is_volume volume ->
  (forall angle, In angle angles ->
     exists out,
       scipy_rotate_by rotate_samples angle volume = Some out /\
       shape out = shape volume /\
       Forall2 clamped (rotate_samples angle volume) (data out))
  /\ (forall draw, exists angle,
        In angle angles /\
        rotate rotate_samples draw volume
        = scipy_rotate_by rotate_samples angle volume).
Proof.
  intros Hvol. split.
  - intros angle _.
    destruct (scipy_rotate_by rotate_samples angle volume) as [out|] eqn:E.
    + destruct (scipy_rotate_by_data _ _ _ E) as [Hs Hd].
      exists out. split; [reflexivity|]. split; [exact Hs|].
      rewrite Hd. apply Forall2_map_right. intros s _. apply clip_0_1.
    + exfalso. revert E. unfold scipy_rotate_by, ndimage_rotate.
      unfold is_volume in Hvol. rewrite Hvol. discriminate.
  - intros draw. destruct (random_choice_angles draw) as (angle & Hc & Hin).
    exists angle. split; [exact Hin|].
    unfold rotate, scipy_rotate. rewrite Hc. reflexivity.
Qed.

(** Without NaN among the samples, every value of the output lies in
    [[0, 1]]. *)
Lemma clamped_within samples out :
  Forall2 clamped samples out -> ~ In NaN samples ->
  Forall (within 0 1) out.
Proof.
  induction 1 as [|s o samples out [_ Hso] _ IH]; intros Hnan.
  - constructor.
  - constructor.
    + apply Hso. intros ->. apply Hnan. now left.
    + apply IH. intros Hin. apply Hnan. now right.
Qed.

End RotateProperties.

(** C5, as stated, fails: rotated by any candidate angle, the volume of a
    single NaN voxel, whose interpolated sample is NaN, comes out as a NaN,
    which is no value of [[0, 1]]. *)
Lemma rotate_keeps_nan :
  is_volume (voxel_volume NaN) /\
  Forall (fun angle =>
            exists out,
              scipy_rotate_by keep_samples angle (voxel_volume NaN)
              = Some out /\
              ~ Forall (within 0 1) (data out))
         angles.
Proof.
  split; [reflexivity|].
  repeat constructor; (eexists; split; [reflexivity|]);
    intros H; inversion H as [|v l Hv _]; exact Hv.
Qed.

Lemma rotate_range_witness :
  is_volume (voxel_volume (Fin (3 # 2))) /\
  exists out,
    scipy_rotate_by keep_samples 10%Z (voxel_volume (Fin (3 # 2))) = Some out /\
    shape out = shape (voxel_volume (Fin (3 # 2))) /\
    Forall2 clamped (keep_samples 10%Z (voxel_volume (Fin (3 # 2)))) (data out).
Proof.
  split; [reflexivity|].
  apply (rotate_range keep_samples (voxel_volume (Fin (3 # 2))) eq_refl).
  simpl. tauto.
Defined.

(** The clamp brings the sample 3/2 down to 1. *)
Example rotate_clamps_example :
  option_map data (rotate keep_samples 4 (voxel_volume (Fin (3 # 2))))
  = Some [Fin 1].
Proof. reflexivity. Qed.

(** * Part III: further properties *)

Local Close Scope Q_scope.

(** ** The sliding windows, frame by frame *)

Lemma nth_error_slice {A} (l : list A) (n k j : nat) :
  (j < k)%nat ->
  nth_error (Py.slice l (Z.of_nat n) (Z.of_nat n + Z.of_nat k)) j
  = nth_error l (n + j).
Proof.
  intros Hj. unfold Py.slice.
  replace (Z.to_nat (Z.of_nat n + Z.of_nat k - Z.of_nat n)) with k by lia.
  rewrite Nat2Z.id, nth_error_firstn.
  destruct (Nat.ltb_spec j k); [|lia]. apply nth_error_skipn.
Qed.

Lemma in_slice {A} (l : list A) lo hi x : In x (Py.slice l lo hi) -> In x l.
Proof.
  unfold Py.slice. intros H.
  rewrite <- (firstn_skipn (Z.to_nat lo) l). apply in_or_app. right.
  rewrite <- (firstn_skipn (Z.to_nat (hi - lo)) (skipn (Z.to_nat lo) l)).
  apply in_or_app. left. exact H.
Qed.

Lemma Forall_slice {A} (P : A -> Prop) (d : A) (l : list A) (n k : nat) :
  (n + k <= length l)%nat ->
  Forall P (Py.slice l (Z.of_nat n) (Z.of_nat n + Z.of_nat k)) <->
  (forall i, (n <= i < n + k)%nat -> P (nth i l d)).
Proof.
  intros Hlen.
  assert (Hslice : length (Py.slice l (Z.of_nat n) (Z.of_nat n + Z.of_nat k)) = k).
  { rewrite slice_length; unfold Py.len; lia. }
  rewrite Forall_forall. split.
  - intros H i Hi. apply H.
    assert (Hnth : nth_error l i = Some (nth i l d))
      by (apply nth_error_nth'; lia).
    replace i with (n + (i - n))%nat in Hnth at 1 by lia.
    rewrite <- (nth_error_slice l n k) in Hnth by lia.
    eapply nth_error_In. exact Hnth.
  - intros H x Hx. apply In_nth_error in Hx. destruct Hx as [j Hj].
    assert (Hjk : (j < k)%nat).
    { rewrite <- Hslice. apply nth_error_Some. congruence. }
    rewrite nth_error_slice in Hj by exact Hjk.
    apply (nth_error_nth _ _ d) in Hj. rewrite <- Hj. apply H. lia.
Qed.

(** X1. An offset passes a window to [temp_series] exactly when it lies in
    [[0, len(X) - 2*ws + 1)] and none of the frames [X[n]] to
    [X[n+ws-1]] is completely black. *)
Theorem kept_offsets_by_frames (X : list frame) (ws : nat) (n : Z) :
  In n (kept_offsets X ws) <->
  0 <= n < Py.len X - 2 * Z.of_nat ws + 1 /\
  forall i : nat,
    n <= Z.of_nat i < n + Z.of_nat ws ->
    is_completely_black (nth i X []) = false.
Proof.
  rewrite in_kept_offsets, in_offsets. unfold Py.len.
  assert (Hslice : 0 <= n < Z.of_nat (length X) - 2 * Z.of_nat ws + 1 ->
            (keeps X ws n = true <->
             forall i, (Z.to_nat n <= i < Z.to_nat n + ws)%nat ->
                       is_completely_black (nth i X []) = false)).
  { intros Hn. unfold keeps. rewrite negb_true_iff, any_false.
    unfold window. replace n with (Z.of_nat (Z.to_nat n)) at 1 2 by lia.
    apply (Forall_slice (fun f => is_completely_black f = false) []).
    lia. }
  split; intros [Hn H]; (split; [exact Hn|]).
  - destruct (Hslice Hn) as [Hto _]. intros i Hi. apply (Hto H). lia.
  - destruct (Hslice Hn) as [_ Hfrom]. apply Hfrom.
    intros i Hi. apply H. lia.
Qed.

(** X2. Every window of [temp_series] is a run of exactly [ws]
    consecutive frames of [X]: it is [X[n:n+ws]] for a start [n] with
    [n + 2*ws <= len(X)], it holds [ws] frames, its frame [j] is
    [X[n+j]], and none of its frames is one of the last [ws] frames of
    [X]. *)
Theorem temp_series_runs (X : list frame) (ws : nat) :
  Forall (fun w =>
            exists n : nat,
              (n + 2 * ws <= length X)%nat /\
              w = firstn ws (skipn n X) /\
              length w = ws /\
              forall j, (j < ws)%nat ->
                nth_error w j = nth_error X (n + j) /\
                (n + j < length X - ws)%nat)
         (temp_series X ws).
Proof.
  apply Forall_forall. intros w Hw. unfold temp_series in Hw.
  apply in_map_iff in Hw. destruct Hw as (n & <- & Hn).
  apply in_kept_offsets in Hn. destruct Hn as [Hn _].
  pose proof (window_length X ws n Hn) as Hlen.
  apply in_offsets in Hn. unfold Py.len in Hn.
  exists (Z.to_nat n). split; [lia|]. split; [|split; [exact Hlen|]].
  - unfold window, Py.slice. f_equal. lia.
  - intros j Hj. split; [|lia].
    unfold window. replace n with (Z.of_nat (Z.to_nat n)) at 1 2 by lia.
    apply nth_error_slice. exact Hj.
Qed.

(** X3. Without a black frame every offset of the range passes: there are
    [len(X) - 2*ws + 1] windows (none when this is negative), the window
    of each offset in turn. *)
Theorem temp_series_without_black (X : list frame) (ws : nat) :
  Forall (fun f => is_completely_black f = false) X ->
  temp_series X ws = map (window X ws) (offsets X ws) /\
  length (temp_series X ws)
  = Z.to_nat (Py.len X - 2 * Z.of_nat ws + 1).
Proof.
  intros Hclean.
  assert (Hkept : kept_offsets X ws = offsets X ws).
  { unfold kept_offsets. apply forallb_filter_id. apply forallb_forall.
    intros n Hn. unfold keeps. rewrite negb_true_iff, any_false.
    rewrite Forall_forall in *. intros f Hf. apply Hclean.
    unfold window in Hf. apply in_slice in Hf. exact Hf. }
  unfold temp_series. rewrite Hkept. split; [reflexivity|].
  rewrite length_map. unfold offsets, Py.range.
  rewrite length_map, length_seq. f_equal. lia.
Qed.

Lemma temp_series_without_black_witness :
  Forall (fun f => is_completely_black f = false) frames5 /\
  length (temp_series frames5 2) = 2%nat.
Proof.
  assert (H : Forall (fun f => is_completely_black f = false) frames5)
    by (repeat constructor).
  split; [exact H|].
  exact (proj2 (temp_series_without_black frames5 2 H)).
Defined.

Lemma range_sorted lo hi : StronglySorted Z.lt (Py.range lo hi).
Proof.
  unfold Py.range. generalize (Z.to_nat (hi - lo)) as k. intros k.
  generalize 0%nat as s. induction k as [|k IH]; intros s; simpl.
  - constructor.
  - constructor; [apply IH|].
    apply Forall_forall. intros m Hm. apply in_map_iff in Hm.
    destruct Hm as (i & <- & Hi). apply in_seq in Hi. lia.
Qed.

Lemma filter_sorted {A} (R : A -> A -> Prop) (p : A -> bool) l :
  StronglySorted R l -> StronglySorted R (filter p l).
Proof.
  induction 1 as [|x l Hs IH Hx]; simpl; [constructor|].
  destruct (p x); [|exact IH]. constructor; [exact IH|].
  rewrite Forall_forall in *. intros y Hy. apply filter_In in Hy.
  apply Hx. tauto.
Qed.

(** X4. The windows come in the order of time: the offsets that
    [temp_series] keeps are strictly increasing, so no offset is used
    twice. *)
Theorem kept_offsets_increasing (X : list frame) (ws : nat) :
  StronglySorted Z.lt (kept_offsets X ws) /\ NoDup (kept_offsets X ws).
Proof.
  assert (H : StronglySorted Z.lt (kept_offsets X ws)).
  { unfold kept_offsets, offsets. apply filter_sorted, range_sorted. }
  split; [exact H|].
  induction H as [|n l _ IH Hn]; constructor; [|exact IH].
  intros Hin. rewrite Forall_forall in Hn. specialize (Hn n Hin). lia.
Qed.

(** ** The split as a partition *)

Section SplitPartition.

Context {scan : Type}.
Implicit Types abnormal_scans normal_scans : array scan.

(** X5. When the scans of the two classes have one shape, the split loses
    and repeats nothing: the training and validation examples together
    are the scans of the two classes, each once, and so are the examples
    paired with their labels. *)
Theorem split_partition abnormal_scans normal_scans :
  example_shape abnormal_scans = example_shape normal_scans ->
  exists x_train y_train x_val y_val,
    split abnormal_scans normal_scans
    = Some (x_train, y_train, x_val, y_val)
    /\ Permutation (examples x_train ++ examples x_val)
                   (examples abnormal_scans ++ examples normal_scans)
    /\ Permutation
         (combine (examples x_train) (examples y_train)
          ++ combine (examples x_val) (examples y_val))
         (map (fun s => (s, 1)) (examples abnormal_scans)
          ++ map (fun s => (s, 0)) (examples normal_scans)).
Proof.
  intros Hshape. rewrite (split_returns _ _ Hshape).
  do 4 eexists. split; [reflexivity|]. cbn [examples].
  assert (Hswap : forall (A : Type) (a1 n1 a2 n2 : list A),
             Permutation ((a1 ++ n1) ++ (a2 ++ n2)) ((a1 ++ a2) ++ (n1 ++ n2))).
  { intros A a1 n1 a2 n2. rewrite <- !app_assoc.
    apply Permutation_app_head. rewrite !app_assoc.
    apply Permutation_app_tail. apply Permutation_app_comm. }
  split.
  - rewrite Hswap, !firstn_skipn. reflexivity.
  - rewrite !combine_app
      by (rewrite repeat_length, ?length_firstn, ?length_skipn; reflexivity).
    rewrite !combine_repeat
      by (rewrite ?length_firstn, ?length_skipn; reflexivity).
    rewrite Hswap, <- !map_app, !firstn_skipn. reflexivity.
Qed.

(** X6. A class with at most 70 scans goes to the training set whole and
    is absent from the validation set: when the scans of the two classes
    have one shape and there are at most 70 abnormal scans, the validation
    examples are normal scans only and every validation label is 0. *)
Theorem split_small_class abnormal_scans normal_scans :
  example_shape abnormal_scans = example_shape normal_scans ->
  (length (examples abnormal_scans) <= 70)%nat ->
  exists x_train y_train x_val y_val,
    split abnormal_scans normal_scans
    = Some (x_train, y_train, x_val, y_val)
    /\ examples x_train
       = examples abnormal_scans ++ firstn 70 (examples normal_scans)
    /\ examples x_val = skipn 70 (examples normal_scans)
    /\ Forall (fun label => label = 0) (examples y_val).
Proof.
  intros Hshape Hlen. rewrite (split_returns _ _ Hshape).
  do 4 eexists. split; [reflexivity|]. cbn [examples].
  rewrite firstn_all2, skipn_all2 by exact Hlen.
  replace (length (examples abnormal_scans) - 70)%nat with 0%nat by lia.
  repeat split. simpl. apply Forall_forall. intros label Hl.
  apply repeat_spec in Hl. exact Hl.
Qed.

End SplitPartition.

Lemma split_partition_witness :
  let abnormal_scans := np_array_scans (seq 0 72) in
  let normal_scans := np_array_scans (seq 100 71) in
  exists x_train y_train x_val y_val,
    split abnormal_scans normal_scans
    = Some (x_train, y_train, x_val, y_val) /\
    Permutation (examples x_train ++ examples x_val)
                (seq 0 72 ++ seq 100 71).
Proof.
  intros abnormal_scans normal_scans.
  destruct (split_partition abnormal_scans normal_scans eq_refl)
    as (xt & yt & xv & yv & Hs & Hp & _).
  exists xt, yt, xv, yv. split; [exact Hs|exact Hp].
Defined.

Lemma split_small_class_witness :
  let abnormal_scans := np_array_scans (seq 0 3) in
  let normal_scans := np_array_scans (seq 100 72) in
  exists x_train y_train x_val y_val,
    split abnormal_scans normal_scans
    = Some (x_train, y_train, x_val, y_val) /\
    examples x_val = [170; 171]%nat /\
    Forall (fun label => label = 0) (examples y_val).
Proof.
  intros abnormal_scans normal_scans.
  assert (H : (length (examples abnormal_scans) <= 70)%nat) by (simpl; lia).
  destruct (split_small_class abnormal_scans normal_scans eq_refl H)
    as (xt & yt & xv & yv & Hs & _ & Hx & Hy).
  exists xt, yt, xv, yv. split; [exact Hs|]. split; [exact Hx|exact Hy].
Defined.

(** ** [normalize], value by value *)

Section NormalizeValues.

Local Open Scope Q_scope.

Context (float64 float32 : Q -> Q).

Lemma normalize_nth volume i x :
  nth_error (data volume) i = Some (Fin x) ->
  nth_error (data (normalize float64 float32 volume)) i
  = Some (Fin (rescale float64 float32 (clipped x))).
Proof.
  intros H. unfold normalize.
  rewrite normalize_with_data, nth_error_map, H. simpl.
  now rewrite normalize_element_fin.
Qed.

Lemma clipped_monotone x y : x <= y -> clipped x <= clipped y.
Proof.
  intros Hxy. unfold clipped, greater, of_int.
  destruct (less (Fin x) (Fin (inject_Z (-1000)))) eqn:X1;
    [|destruct (less (Fin (inject_Z 400)) (Fin x)) eqn:X2];
    (destruct (less (Fin y) (Fin (inject_Z (-1000)))) eqn:Y1;
     [|destruct (less (Fin (inject_Z 400)) (Fin y)) eqn:Y2]);
    bounds; lra.
Qed.

Lemma clip_idempotent v : clip (-1000) 400 (clip (-1000) 400 v)
                          = clip (-1000) 400 v.
Proof.
  destruct v as [| | |x]; try reflexivity.
  unfold clip, greater, of_int.
  destruct (less (Fin x) (Fin (inject_Z (-1000)))) eqn:E1; [reflexivity|].
  destruct (less (Fin (inject_Z 400)) (Fin x)) eqn:E2; [reflexivity|].
  now rewrite E1, E2.
Qed.

Lemma ndarray_eq (a b : ndarray) :
  shape a = shape b -> data a = data b -> a = b.
Proof. destruct a, b. simpl. congruence. Qed.

Lemma clip_range v :
  v = NaN \/ within (-1000) 400 (clip (-1000) 400 v).
Proof.
  destruct v as [| | |x].
  - now left.
  - right. vm_compute. split; discriminate.
  - right. vm_compute. split; discriminate.
  - right. unfold clip, greater, of_int.
    destruct (less (Fin x) (Fin (inject_Z (-1000)))) eqn:E1.
    + vm_compute. split; discriminate.
    + destruct (less (Fin (inject_Z 400)) (Fin x)) eqn:E2.
      * vm_compute. split; discriminate.
      * bounds. simpl. lra.
Qed.

(** X7. After [normalize(volume)] the array the caller passed in holds the
    clipped values: every element is NaN or lies in [[-1000, 400]], and
    elements that were in this interval are as before.  Normalizing that
    array once more returns what the first call returned. *)
Theorem normalize_in_place_clipped (volume : ndarray) :
  shape (normalize_in_place (-1000) 400 volume) = shape volume /\
  Forall2 (fun v c => (c = NaN \/ within (-1000) 400 c) /\
                      (within (-1000) 400 v -> c = v))
          (data volume) (data (normalize_in_place (-1000) 400 volume)) /\
  normalize float64 float32 (normalize_in_place (-1000) 400 volume)
  = normalize float64 float32 volume.
Proof.
  assert (Hdata : data (normalize_in_place (-1000) 400 volume)
                  = map (clip (-1000) 400) (data volume)).
  { unfold normalize_in_place, assign_where, elementwise. simpl.
    now rewrite map_map. }
  split; [reflexivity|]. split.
  - rewrite Hdata. apply Forall2_map_right. intros v _. split.
    + destruct (clip_range v) as [-> | H]; [now left|now right].
    + destruct v as [| | |x]; simpl; try contradiction.
      intros Hx. unfold clip. f_equal.
      unfold greater, of_int.
      destruct (less (Fin x) (Fin (inject_Z (-1000)))) eqn:E1;
        [bounds; exfalso; lra|].
      destruct (less (Fin (inject_Z 400)) (Fin x)) eqn:E2;
        [bounds; exfalso; lra|reflexivity].
  - apply ndarray_eq; [reflexivity|]. unfold normalize.
    rewrite !normalize_with_data, Hdata, map_map. apply map_ext.
    intros v. unfold normalize_element. now rewrite clip_idempotent.
Qed.

Lemma rescale_monotone a b :
  monotone float64 -> monotone float32 ->
  a <= b -> rescale float64 float32 a <= rescale float64 float32 b.
Proof.
  intros H64 H32 Hab. unfold rescale. apply H32, H64.
  apply Qmult_le_compat_r; [|discriminate].
  apply H64. lra.
Qed.

(** X8. [normalize] keeps the order of the intensities, whatever the
    roundings of [float64] and [float32] as long as they grow with their
    argument: of two finite voxels of a volume, the one with the smaller
    or equal value has the smaller or equal normalized value. *)
Theorem normalize_monotone (volume : ndarray) (i j : nat) (x y : Q) :
  monotone float64 -> monotone float32 ->
  nth_error (data volume) i = Some (Fin x) ->
  nth_error (data volume) j = Some (Fin y) ->
  x <= y ->
  exists a b,
    nth_error (data (normalize float64 float32 volume)) i = Some (Fin a) /\
    nth_error (data (normalize float64 float32 volume)) j = Some (Fin b) /\
    a <= b.
Proof.
  intros H64 H32 Hi Hj Hxy.
  exists (rescale float64 float32 (clipped x)).
  exists (rescale float64 float32 (clipped y)).
  split; [now apply normalize_nth|]. split; [now apply normalize_nth|].
  apply rescale_monotone; [exact H64|exact H32|].
  apply clipped_monotone, Hxy.
Qed.

Context `{!Rounding float64} `{!Rounding float32}.

(** X9. Between the clip bounds [normalize] is the map [(x + 1000) / 1400]
    up to rounding: the normalized value of a voxel [x] of
    [[-1000, 400]] differs from [(x + 1000) / 1400] by at most [2^-22]. *)
Theorem normalize_accuracy (volume : ndarray) (i : nat) (x : Q) :
  nth_error (data volume) i = Some (Fin x) ->
  -1000 <= x <= 400 ->
  exists o,
    nth_error (data (normalize float64 float32 volume)) i = Some (Fin o) /\
    Qabs (o - (x + 1000) / 1400) <= 1 # 4194304.
Proof.
  intros Hi Hx. exists (rescale float64 float32 (clipped x)).
  split; [now apply normalize_nth|].
  rewrite clipped_inside by exact Hx. unfold rescale.
  assert (Hs0 : 0 <= x - (-1000)) by lra.
  destruct (rnd_nonneg float64 _ Hs0) as [Hs1 Hs2].
  set (s := float64 (x - (-1000))) in *.
  assert (Hd0 : 0 <= s / 1400).
  { apply Qle_shift_div_l; [reflexivity|]. unfold unit_roundoff in *.
    assert (0 <= (x - -1000) * (1 - (1 # 16777216)))
      by (apply Qmult_le_0_compat; [lra|discriminate]).
    lra. }
  destruct (rnd_nonneg float64 _ Hd0) as [Hd1 Hd2].
  set (d := float64 (s / 1400)) in *.
  assert (Hdiv : s / 1400 == s * (1 # 1400)) by field.
  rewrite Hdiv in Hd1, Hd2, Hd0.
  assert (Ho0 : 0 <= d).
  { unfold unit_roundoff in *.
    assert (0 <= s * (1 # 1400) * (1 - (1 # 16777216)))
      by (apply Qmult_le_0_compat; [lra|discriminate]).
    lra. }
  destruct (rnd_nonneg float32 _ Ho0) as [Ho1 Ho2].
  set (o := float32 d) in *.
  assert (Ht : (x + 1000) / 1400 == (x + 1000) * (1 # 1400)) by field.
  rewrite Ht. unfold unit_roundoff in *.
  apply Qabs_Qle_condition. lra.
Qed.

End NormalizeValues.

Lemma normalize_monotone_witness :
  exists a b,
    nth_error (data (normalize binary64 binary32 hu_volume)) 2 = Some (Fin a) /\
    nth_error (data (normalize binary64 binary32 hu_volume)) 3 = Some (Fin b) /\
    (a <= b)%Q.
Proof.
  apply (normalize_monotone binary64 binary32 hu_volume 2 3 (-300) 0);
    [exact rnd_monotone|exact rnd_monotone|reflexivity|reflexivity
    |discriminate].
Defined.

Lemma normalize_accuracy_witness :
  exists o,
    nth_error (data (normalize binary64 binary32 hu_volume)) 3 = Some (Fin o) /\
    (Qabs (o - (0 + 1000) / 1400) <= 1 # 4194304)%Q.
Proof.
  apply (normalize_accuracy binary64 binary32 hu_volume 3 0);
    [reflexivity|split; discriminate].
Defined.

(** ** When [resize_volume] and [process_scan] return *)

(** One step of a chain of cells: the first call returned, or the whole
    chain raised. *)
Ltac bind_step H :=
  match type of H with
  | bind ?m _ = Some _ =>
      let E := fresh "E" in
      destruct m eqn:E; cbn [bind] in H; [|discriminate H]
  end.

Section ReturnsProperties.

Local Open Scope Q_scope.

Context (float64 float32 : Q -> Q).
Context (rotate_samples : Z -> ndarray -> list float).
Context (zoom_samples : list Q -> ndarray -> list float).

Lemma resize_volume_three_axes img out :
  resize_volume float64 rotate_samples zoom_samples img = Some out ->
  length (shape img) = 3%nat.
Proof.
  intros H. unfold resize_volume in H. repeat bind_step H.
  match goal with
  | Hr : ndimage_rotate _ _ _ = Some ?r,
    Hz : ndimage_zoom _ _ ?r _ = Some _ |- _ =>
      unfold ndimage_rotate in Hr;
      destruct (length (shape img) <? 2)%nat; [discriminate Hr|];
      injection Hr as <-; unfold ndimage_zoom in Hz; cbn [shape length] in Hz;
      destruct (Nat.eqb_spec 3 (length (shape img))) as [Heq|Hne];
      [symmetry; exact Heq|discriminate Hz]
  end.
Qed.

Context `{!Rounding float64}.

Lemma resize_volume_returns_spec (img : ndarray) :
  ((exists out,
       resize_volume float64 rotate_samples zoom_samples img = Some out)
   <-> exists w h d,
         shape img = [w; h; d] /\ (0 < w)%nat /\ (0 < h)%nat /\ (0 < d)%nat)
  /\ (forall out,
         resize_volume float64 rotate_samples zoom_samples img = Some out ->
         shape out = [128; 128; 64]%nat).
Proof.
  assert (Hneeds : forall out,
             resize_volume float64 rotate_samples zoom_samples img = Some out ->
             exists w h d,
               shape img = [w; h; d] /\
               (0 < w)%nat /\ (0 < h)%nat /\ (0 < d)%nat).
  { intros out H. pose proof (resize_volume_three_axes _ _ H) as Hlen.
    destruct (shape img) as [|w [|h [|d [|? ?]]]] eqn:Hs;
      try discriminate Hlen.
    exists w, h, d. split; [reflexivity|].
    destruct (Nat.eq_dec w 0) as [Hw|Hw];
      [|destruct (Nat.eq_dec h 0) as [Hh|Hh];
        [|destruct (Nat.eq_dec d 0) as [Hd|Hd]; [|lia]]];
      exfalso;
      rewrite (resize_volume_empty_axis float64 rotate_samples zoom_samples
                 img w h d Hs) in H by tauto;
      discriminate H. }
  split; [split|].
  - intros [out H]. exact (Hneeds out H).
  - intros (w & h & d & Hs & Hw & Hh & Hd). eexists.
    apply (resize_volume_returns float64 rotate_samples zoom_samples
             img w h d); assumption.
  - intros out H. destruct (Hneeds out H) as (w & h & d & Hs & Hw & Hh & Hd).
    rewrite (resize_volume_returns float64 rotate_samples zoom_samples
               img w h d Hs Hw Hh Hd) in H.
    injection H as <-. reflexivity.
Qed.

(** X10. [resize_volume] returns exactly for the arrays with three axes
    of at least one element each, and what it returns has the shape
    (128, 128, 64): an array with another number of axes or with an empty
    axis makes it raise. *)
Theorem resize_volume_returns_iff (img : ndarray) :
  ((exists out,
       resize_volume float64 rotate_samples zoom_samples img = Some out)
   <-> exists w h d,
         shape img = [w; h; d] /\ (0 < w)%nat /\ (0 < h)%nat /\ (0 < d)%nat)
  /\ (forall out,
         resize_volume float64 rotate_samples zoom_samples img = Some out ->
         shape out = [128; 128; 64]%nat).
Proof. exact (resize_volume_returns_spec img). Qed.

(** X11. [process_scan] returns exactly for the scans with three axes of
    at least one element each, whatever their values, and what it returns
    has the shape (128, 128, 64). *)
Theorem process_scan_returns_iff (volume : ndarray) :
  ((exists out,
       process_scan float64 float32 rotate_samples zoom_samples volume
       = Some out)
   <-> exists w h d,
         shape volume = [w; h; d] /\
         (0 < w)%nat /\ (0 < h)%nat /\ (0 < d)%nat)
  /\ (forall out,
         process_scan float64 float32 rotate_samples zoom_samples volume
         = Some out ->
         shape out = [128; 128; 64]%nat).
Proof.
  assert (Hsame : forall out,
             process_scan float64 float32 rotate_samples zoom_samples volume
             = Some out <->
             resize_volume float64 rotate_samples zoom_samples
               (normalize float64 float32 volume) = Some out).
  { intros out. unfold process_scan.
    destruct (resize_volume float64 rotate_samples zoom_samples
                (normalize float64 float32 volume)); cbn [bind]; tauto. }
  destruct (resize_volume_returns_spec (normalize float64 float32 volume))
    as [Hiff Hshape].
  change (shape (normalize float64 float32 volume)) with (shape volume)
    in Hiff.
  split; [split|].
  - intros [out H]. apply Hiff. exists out. now apply Hsame.
  - intros H. apply Hiff in H. destruct H as [out H].
    exists out. now apply Hsame.
  - intros out H. apply Hshape. now apply Hsame.
Qed.

End ReturnsProperties.

Lemma resize_volume_returns_iff_witness :
  (exists out,
      resize_volume binary64 keep_samples keep_samples empty_volume = Some out)
  <-> exists w h d,
        shape empty_volume = [w; h; d] /\
        (0 < w)%nat /\ (0 < h)%nat /\ (0 < d)%nat.
Proof.
  exact (proj1 (resize_volume_returns_iff binary64 keep_samples keep_samples
                  empty_volume)).
Defined.

Lemma process_scan_returns_iff_witness :
  (exists out,
      process_scan binary64 binary32 keep_samples keep_samples hu_volume
      = Some out)
  <-> exists w h d,
        shape hu_volume = [w; h; d] /\
        (0 < w)%nat /\ (0 < h)%nat /\ (0 < d)%nat.
Proof.
  exact (proj1 (process_scan_returns_iff binary64 binary32 keep_samples
                  keep_samples hu_volume)).
Defined.

(** ** The augmentation and the preprocessing of an example *)

Section PreprocessingProperties.

Local Open Scope Q_scope.

Context (rotate_samples : Z -> ndarray -> list float).

Lemma clip_0_1_inside s : within 0 1 s -> clip 0 1 s = s.
Proof.
  destruct s as [| | |x]; simpl; try contradiction. intros Hx.
  unfold clip, greater, of_int.
  destruct (less (Fin x) (Fin (inject_Z 0))) eqn:E1; [bounds; exfalso; lra|].
  destruct (less (Fin (inject_Z 1)) (Fin x)) eqn:E2; [bounds; exfalso; lra|].
  reflexivity.
Qed.

(** X12. The clamp of the rotation touches nothing that is in range: when
    every sample of the interpolation lies in [[0, 1]], [scipy_rotate]
    returns these samples as they are, in the shape of the input. *)
Theorem scipy_rotate_by_in_range (angle : Z) (volume : ndarray) :
  is_volume volume ->
  Forall (within 0 1) (rotate_samples angle volume) ->
  scipy_rotate_by rotate_samples angle volume
  = Some {| shape := shape volume; data := rotate_samples angle volume |}.
Proof.
  intros Hvol Hin. unfold scipy_rotate_by, ndimage_rotate.
  unfold is_volume in Hvol. rewrite Hvol. cbn [Nat.ltb Nat.leb bind].
  unfold assign_where, elementwise. cbn [shape data]. f_equal. f_equal.
  rewrite map_map. rewrite <- (map_id (rotate_samples angle volume)) at 2.
  apply map_ext_in. intros s Hs. rewrite Forall_forall in Hin.
  apply (clip_0_1_inside s (Hin s Hs)).
Qed.

Lemma expand_dims_volume (volume : ndarray) :
  is_volume volume ->
  expand_dims volume 3
  = Some {| shape := shape volume ++ [1%nat]; data := data volume |}.
Proof.
  unfold is_volume, expand_dims. intros Hvol. rewrite Hvol.
  cbn [Nat.leb]. f_equal. f_equal.
  destruct (shape volume) as [|w [|h [|d [|? ?]]]]; try discriminate Hvol.
  reflexivity.
Qed.



End PreprocessingProperties.

Lemma scipy_rotate_by_in_range_witness :
  scipy_rotate_by keep_samples 5 (voxel_volume (Fin (1 # 2)))
  = Some (voxel_volume (Fin (1 # 2))).
Proof.
  apply (scipy_rotate_by_in_range keep_samples 5 (voxel_volume (Fin (1 # 2)))).
  - reflexivity.
  - repeat constructor; discriminate.
Defined.


(** ** The data loaders *)

Lemma firstn_plus {A} (a b : nat) (l : list A) :
  firstn (a + b) l = firstn a l ++ firstn b (skipn a l).
Proof.
  revert l. induction a as [|a IH]; intros [|x l]; simpl;
    try reflexivity.
  - now rewrite firstn_nil.
  - now rewrite IH.
Qed.

Lemma chunks_count_covers (n len : nat) :
  (0 < n)%nat -> (len <= (len + n - 1) / n * n)%nat.
Proof.
  intros Hn. pose proof (Nat.div_mod_eq (len + n - 1) n) as H.
  pose proof (Nat.mod_upper_bound (len + n - 1) n ltac:(lia)). nia.
Qed.

Lemma chunks_concat {A} (n : nat) (l : list A) :
  (0 < n)%nat -> concat (chunks n l) = l.
Proof.
  intros Hn. unfold chunks.
  assert (H : forall k,
             concat (map (fun i => firstn n (skipn (i * n) l)) (seq 0 k))
             = firstn (k * n) l).
  { induction k as [|k IH]; [reflexivity|].
    rewrite seq_S, map_app, concat_app, IH. simpl.
    rewrite app_nil_r, (Nat.add_comm n (k * n)). symmetry.
    apply firstn_plus. }
  rewrite H. apply firstn_all2. apply chunks_count_covers. exact Hn.
Qed.

Lemma chunks_sizes {A} (n : nat) (l : list A) :
  (0 < n)%nat ->
  Forall (fun b => (1 <= length b <= n)%nat) (chunks n l).
Proof.
  intros Hn. unfold chunks. apply Forall_forall. intros b Hb.
  apply in_map_iff in Hb. destruct Hb as (i & <- & Hi).
  apply in_seq in Hi. rewrite length_firstn, length_skipn.
  assert (i * n < length l)%nat.
  { destruct Hi as [_ Hi]. simpl in Hi.
    pose proof (Nat.div_mod_eq (length l + n - 1) n) as H.
    pose proof (Nat.mod_upper_bound (length l + n - 1) n ltac:(lia)). nia. }
  lia.
Qed.

Lemma chunks_length {A} (n : nat) (l : list A) :
  length (chunks n l) = ((length l + n - 1) / n)%nat.
Proof. unfold chunks. now rewrite length_map, length_seq. Qed.

Lemma chunks_in {A} (n : nat) (l : list A) b x :
  In b (chunks n l) -> In x b -> In x l.
Proof.
  unfold chunks. intros Hb Hx. apply in_map_iff in Hb.
  destruct Hb as (i & <- & _).
  rewrite <- (firstn_skipn (i * n) l). apply in_or_app. right.
  rewrite <- (firstn_skipn n (skipn (i * n) l)). apply in_or_app.
  left. exact Hx.
Qed.

Lemma batch_same_shape (n : nat) (l : list example) (s : list nat) :
  (0 < n)%nat -> Forall (fun e => shape (fst e) = s) l ->
  batch n l = Some (chunks n l).
Proof.
  intros Hn Hs. unfold batch.
  destruct (Nat.eqb_spec n 0) as [H0|_]; [lia|].
  assert (Hall : forallb stackable (chunks n l) = true).
  { apply forallb_forall. intros b Hb. unfold stackable.
    destruct b as [|e b']; [reflexivity|].
    apply forallb_forall. intros e' He'.
    rewrite Forall_forall in Hs.
    assert (He : In e (e :: b')) by now left.
    rewrite (Hs e' (chunks_in n l _ _ Hb He')),
            (Hs e (chunks_in n l _ _ Hb He)).
    destruct (list_eq_dec Nat.eq_dec s s); [reflexivity|contradiction]. }
  now rewrite Hall.
Qed.

Lemma lookup_all {A} (pre l : list A) :
  flat_map (fun i => match nth_error (pre ++ l) i with
                     | Some x => [x]
                     | None => []
                     end) (seq (length pre) (length l)) = l.
Proof.
  revert pre. induction l as [|x l IH]; intros pre; [reflexivity|].
  simpl. rewrite nth_error_app2, Nat.sub_diag by lia. simpl. f_equal.
  specialize (IH (pre ++ [x])).
  rewrite length_app, Nat.add_1_r, <- app_assoc in IH. exact IH.
Qed.

Lemma shuffle_permutation {A} (buffer_size : nat) (order : list nat)
  (l : list A) :
  (0 < buffer_size)%nat -> Permutation order (seq 0 (length l)) ->
  exists shuffled,
    shuffle buffer_size order l = Some shuffled /\ Permutation shuffled l.
Proof.
  intros Hb Hperm. unfold shuffle.
  destruct (Nat.eqb_spec buffer_size 0) as [H0|_]; [lia|].
  eexists. split; [reflexivity|].
  rewrite (Permutation_flat_map _ Hperm).
  rewrite <- (lookup_all [] l) at 2. reflexivity.
Qed.

Lemma dataset_map_all {A B} (f : nat -> A -> option B) (P : A -> B -> Prop)
  (draws : nat -> nat) (l : list A) :
  (forall draw x, In x l -> exists y, f draw x = Some y /\ P x y) ->
  forall k, exists ys,
    dataset_map f draws k l = Some ys /\ Forall2 P l ys.
Proof.
  induction l as [|x l IH]; intros H k; simpl.
  - exists []. split; [reflexivity|constructor].
  - destruct (H (draws k) x (or_introl eq_refl)) as (y & Hy & HP).
    destruct (IH (fun d x' Hx' => H d x' (or_intror Hx')) (S k))
      as (ys & Hys & HF).
    exists (y :: ys). rewrite Hy, Hys. split; [reflexivity|].
    now constructor.
Qed.

Section DataLoaderProperties.

Context (rotate_samples : Z -> ndarray -> list float).


(** X14. One pass over [validation_dataset], for scans of one shape with
    three axes paired with as many labels, and at least one of them:
    every example is delivered exactly once, with its own label, its
    values unchanged and a channel axis added; the batches hold two
    examples, but for a last batch of one when the number is odd. *)
Theorem validation_dataset_pass (order : list nat) (s : list nat)
  (x_val : list ndarray) (y_val : list Z) :
  length x_val = length y_val -> x_val <> [] ->
  length s = 3%nat -> Forall (fun v => shape v = s) x_val ->
  Permutation order (seq 0 (length x_val)) ->
  exists batches,
    validation_dataset order x_val y_val = Some batches /\
    Permutation (concat batches) (map with_channel (combine x_val y_val)) /\
    Forall (fun b => (1 <= length b <= 2)%nat) batches /\
    length batches = ((length x_val + 1) / 2)%nat.
Proof.
  intros Hlen Hne Hs Hshape Hperm.
  assert (Hpos : (0 < length x_val)%nat)
    by (destruct x_val; [contradiction|simpl; lia]).
  assert (Hzip : length (combine x_val y_val) = length x_val)
    by (rewrite length_combine; lia).
  destruct (shuffle_permutation (length x_val) order (combine x_val y_val)
              Hpos) as (shuffled & Hshuf & Hsp);
    [now rewrite Hzip|].
  assert (Hshapes : Forall (fun e : example => shape (fst e) = s) shuffled).
  { apply Forall_forall. intros [v l] Hin.
    apply (Permutation_in _ Hsp), in_combine_l in Hin.
    rewrite Forall_forall in Hshape. now apply Hshape. }
  destruct (dataset_map_all (fun _ => validation_preprocessing)
              (fun e e' => e' = with_channel e) (fun _ => 0%nat) shuffled)
    with (k := 0%nat) as (mapped & Hmap & HF).
  { intros _ [v l] Hin. eexists. split; [|reflexivity].
    unfold validation_preprocessing.
    rewrite expand_dims_volume; [reflexivity|].
    rewrite Forall_forall in Hshapes. specialize (Hshapes _ Hin).
    simpl in Hshapes. unfold is_volume. now rewrite Hshapes. }
  assert (Hmapped : mapped = map with_channel shuffled).
  { clear - HF. induction HF; simpl; congruence. }
  assert (Hbatch : batch batch_size mapped = Some (chunks 2 mapped)).
  { apply (batch_same_shape 2 mapped (s ++ [1%nat])); [lia|].
    subst mapped. apply Forall_forall. intros e He.
    apply in_map_iff in He. destruct He as (e0 & <- & He0).
    rewrite Forall_forall in Hshapes. simpl. now rewrite (Hshapes _ He0). }
  exists (chunks 2 mapped). split; [|split; [|split]].
  - unfold validation_dataset, from_tensor_slices.
    rewrite Hlen, Nat.eqb_refl. cbn [bind]. rewrite <- Hlen, Hshuf.
    cbn [bind]. rewrite Hmap. cbn [bind]. rewrite Hbatch. reflexivity.
  - rewrite chunks_concat by lia. subst mapped.
    apply Permutation_map. exact Hsp.
  - apply chunks_sizes. lia.
  - rewrite chunks_length. subst mapped. rewrite length_map.
    pose proof (Permutation_length Hsp) as Hl. unfold example in *.
    rewrite Hl, Hzip. f_equal. lia.
Qed.


End DataLoaderProperties.

(** Three validation examples of a single voxel and an order of the
    shuffle. *)
Lemma validation_dataset_pass_witness :
  let x_val := [voxel_volume (Fin 0); voxel_volume (Fin 1);
                voxel_volume (Fin (1 # 2))] in
  let y_val := [1; 0; 1] in
  exists batches,
    validation_dataset [2; 0; 1]%nat x_val y_val = Some batches /\
    Permutation (concat batches) (map with_channel (combine x_val y_val)) /\
    Forall (fun b => (1 <= length b <= 2)%nat) batches /\
    length batches = 2%nat.
Proof.
  intros x_val y_val.
  apply (validation_dataset_pass [2; 0; 1]%nat [1; 1; 1]%nat x_val y_val).
  - reflexivity.
  - discriminate.
  - reflexivity.
  - repeat constructor.
  - apply perm_trans with [0; 2; 1]%nat;
      [apply perm_swap|apply perm_skip, perm_swap].
Defined.


(** The pass of the example: the shuffled order, the angle indexes 0, 1
    and 2 and the two batches. *)
Example train_dataset_example :
  option_map (map (map (fun e : example => (data (fst e), snd e))))
    (train_dataset keep_samples [2; 0; 1]%nat (fun k => k)
       [voxel_volume (Fin 0); voxel_volume (Fin 1);
        voxel_volume (Fin (3 # 2))] [1; 0; 1])
  = Some [[([of_int 1], 1); ([of_int 0], 1)]; [([Fin 1], 0)]].
Proof. reflexivity. Qed.

(** ** The network *)

Lemma checked_some (s : tensor_shape) :
  positive_shape s = true -> checked s = Some s.
Proof. unfold checked. now intros ->. Qed.

Lemma checked_inv (s s' : tensor_shape) :
  checked s = Some s' -> s' = s /\ positive_shape s = true.
Proof.
  unfold checked. destruct (positive_shape s); [|discriminate].
  intros H. injection H as <-. now split.
Qed.

Lemma positive_feature (w h d c : Z) :
  positive_shape (Feature w h d c) = true <-> 1 <= w /\ 1 <= h /\ 1 <= d.
Proof. cbn [positive_shape]. rewrite !andb_true_iff, !Z.leb_le. tauto. Qed.

(** The side of a feature map after a convolution with a kernel of 3 and
    a pooling with a window of 2, four times over: every one of the eight
    sides holds an element exactly when the first has 46. *)
Lemma side_chain (n : Z) :
  let c1 := n - 3 + 1 in let p1 := (c1 - 2) / 2 + 1 in
  let c2 := p1 - 3 + 1 in let p2 := (c2 - 2) / 2 + 1 in
  let c3 := p2 - 3 + 1 in let p3 := (c3 - 2) / 2 + 1 in
  let c4 := p3 - 3 + 1 in let p4 := (c4 - 2) / 2 + 1 in
  (1 <= c1 /\ 1 <= p1 /\ 1 <= c2 /\ 1 <= p2 /\
   1 <= c3 /\ 1 <= p3 /\ 1 <= c4 /\ 1 <= p4) <-> 46 <= n.
Proof. cbv zeta. split; intros H; Z.div_mod_to_equations; lia. Qed.

Lemma some_eq {A : Type} (x y : A) : Some x = Some y -> x = y.
Proof. congruence. Qed.

Ltac next_layer H :=
  match type of H with
  | context [checked ?s] =>
      let E := fresh "E" in
      destruct (checked s) as [?|] eqn:E;
      [apply checked_inv in E; destruct E as [-> E];
       apply positive_feature in E; cbn [bind] in H
      |cbn [bind] in H; try congruence]
  end.

(** X16. The model is built exactly when each side of the
    input holds at least 46 elements; a smaller input leaves one of the
    convolutions or poolings without output. *)
Theorem get_model_builds (width height depth : Z) :
  get_model width height depth <> None <->
  46 <= width /\ 46 <= height /\ 46 <= depth.
Proof.
  unfold get_model, get_model_layers.
  rewrite <- (side_chain width), <- (side_chain height), <- (side_chain depth).
  cbv zeta. cbn [summary output_shape]. split.
  - intros H. do 8 next_layer H. tauto.
  - intros H.
    repeat (rewrite checked_some by (apply positive_feature; tauto);
            cbn [bind]).
    discriminate.
Qed.

(** X17. Whatever the sides of the input, a model that is
    built has 16 layers, ends in one unit, and holds 1,352,897 weights of
    which 1,024 are not trainable. *)
Theorem get_model_params (width height depth : Z)
  (rows : list summary_row) :
  get_model width height depth = Some rows ->
  length rows = 16%nat /\
  model_output rows = Some (Vector 1) /\
  total_params rows = 1352897 /\
  total_non_trainable rows = 1024.
Proof.
  unfold get_model, get_model_layers. cbn [summary output_shape].
  intros H. do 8 next_layer H.
  apply some_eq in H. subst rows. repeat split.
Qed.

Lemma get_model_params_witness :
  exists rows,
    get_model 128 128 64 = Some rows /\
    length rows = 16%nat /\
    model_output rows = Some (Vector 1) /\
    total_params rows = 1352897 /\
    total_non_trainable rows = 1024.
Proof.
  eexists. split; [reflexivity|].
  apply (get_model_params 128 128 64). reflexivity.
Defined.

(** The feature maps of the model of the notebook: the last pooling
    leaves 6 by 6 by 2 elements in 256 channels. *)
Example get_model_128_128_64 :
  option_map (fun rows => map row_output (firstn 12 rows))
             (get_model 128 128 64)
  = Some [Feature 126 126 62 64; Feature 63 63 31 64; Feature 63 63 31 64;
          Feature 61 61 29 64; Feature 30 30 14 64; Feature 30 30 14 64;
          Feature 28 28 12 128; Feature 14 14 6 128; Feature 14 14 6 128;
          Feature 12 12 4 256; Feature 6 6 2 256; Feature 6 6 2 256].
Proof. reflexivity. Qed.

(** ** The array of the windows *)

Lemma length_concat_uniform {A} (k : nat) (ls : list (list A)) :
  Forall (fun l => length l = k) ls ->
  length (concat ls) = (length ls * k)%nat.
Proof.
  induction 1 as [|l ls Hl _ IH]; [reflexivity|].
  simpl. rewrite length_app, IH, Hl. reflexivity.
Qed.

Lemma Forall_concat {A} (P : A -> Prop) (ls : list (list A)) :
  Forall (Forall P) ls -> Forall P (concat ls).
Proof.
  induction 1 as [|l ls Hl _ IH]; [constructor|].
  simpl. apply Forall_app. now split.
Qed.

Lemma frame_of_size_spec (width height : nat) (f : frame) :
  frame_of_size width height f = true <->
  length f = height /\ Forall (fun row => length row = width) f.
Proof.
  unfold frame_of_size.
  rewrite andb_true_iff, Nat.eqb_eq, forallb_forall, Forall_forall.
  split; intros [Hl Hrows]; (split; [exact Hl|]);
    intros row Hrow; apply Nat.eqb_eq, Hrows, Hrow.
Qed.

(** The windows of [temp_series] hold [ws] frames of [X] each. *)
Lemma temp_series_of_frames (P : frame -> Prop) (X : list frame) (ws : nat) :
  Forall P X ->
  Forall (fun w => length w = ws /\ Forall P w) (temp_series X ws).
Proof.
  intros HX. unfold temp_series. apply Forall_forall. intros w Hw.
  apply in_map_iff in Hw. destruct Hw as (n & <- & Hn).
  apply in_kept_offsets in Hn. destruct Hn as [Hn _]. split.
  - now apply window_length.
  - apply Forall_forall. intros f Hf. unfold window in Hf.
    apply in_slice in Hf. rewrite Forall_forall in HX. now apply HX.
Qed.

Lemma size_stacked (n ws width height : nat) :
  size [n; ws; height; width] = (n * (ws * width * height))%nat /\
  size [n; ws; width; height; 1%nat] = (n * (ws * width * height))%nat.
Proof. simpl. split; lia. Qed.

Section WindowsProperties.

Context (float64 : Q -> Q) `{!Rounding float64}.

Lemma scaled_pixel (p : pixel) :
  uint8 p -> within 0 1 (div float64 (of_int p) (Fin 255)).
Proof.
  unfold uint8. intros Hp. cbn.
  assert (H0 : (0 <= inject_Z p / 255)%Q).
  { apply Qle_shift_div_l; [reflexivity|].
    unfold Qle. simpl. lia. }
  assert (H1 : (inject_Z p / 255 <= 1)%Q).
  { apply Qle_shift_div_r; [reflexivity|].
    unfold Qle. simpl. lia. }
  split.
  - rewrite <- (rnd_0 float64). now apply rnd_monotone.
  - rewrite <- (rnd_1 float64). now apply rnd_monotone.
Qed.

(** What [np.array] makes of windows of [ws] frames of one size. *)
Lemma np_array_uniform (ws width height : nat) (series : list (list frame)) :
  (0 < ws)%nat ->
  Forall (fun w => length w = ws /\
                   Forall (fun f => frame_of_size width height f = true) w)
         series ->
  exists a,
    np_array ws width height series = Some a /\
    size (shape a) = (length series * (ws * width * height))%nat /\
    length (data a) = size (shape a) /\
    data a = map of_int (concat (concat (concat series))).
Proof.
  intros Hws Hseries.
  assert (Hlen : length (concat (concat (concat series)))
                 = (length series * (ws * width * height))%nat).
  { rewrite (length_concat_uniform width).
    - rewrite (length_concat_uniform height).
      + rewrite (length_concat_uniform ws).
        * rewrite <- !Nat.mul_assoc. do 2 f_equal. apply Nat.mul_comm.
        * eapply Forall_impl; [|exact Hseries]. now intros w [Hw _].
      + apply Forall_concat. eapply Forall_impl; [|exact Hseries].
        intros w [_ Hw]. eapply Forall_impl; [|exact Hw].
        intros f Hf. now apply frame_of_size_spec in Hf.
    - apply Forall_concat, Forall_concat.
      eapply Forall_impl; [|exact Hseries].
      intros w [_ Hw]. eapply Forall_impl; [|exact Hw].
      intros f Hf. now apply frame_of_size_spec in Hf. }
  assert (Hall : forallb
                   (fun w => (length w =? ws)%nat
                             && forallb (frame_of_size width height) w)
                   series = true).
  { apply forallb_forall. intros w Hw.
    rewrite Forall_forall in Hseries. destruct (Hseries w Hw) as [Hl Hf].
    apply andb_true_iff. split; [now apply Nat.eqb_eq|].
    apply forallb_forall. rewrite Forall_forall in Hf. exact Hf. }
  unfold np_array. destruct series as [|w series].
  - eexists. split; [reflexivity|]. simpl. repeat split; reflexivity.
  - rewrite Hall. destruct (Nat.eqb_spec ws 0) as [->|_]; [lia|].
    eexists. split; [reflexivity|]. cbn [shape data].
    destruct (size_stacked (length (w :: series)) ws width height)
      as [-> _].
    split; [reflexivity|]. split; [|reflexivity].
    rewrite length_map. exact Hlen.
Qed.

(** X18. For frames of [height] rows of [width] pixels, with [width],
    [height] and the window size [ws] at least 1, the cells that build
    [tc_n] run through exactly when
    [temp_series] holds 222 windows; the array then has the shape
    (222, ws, width, height, 1), one element per pixel of the windows, and
    for 8-bit pixels every element lies in [[0, 1]]. *)
Theorem tc_n_returns (ws width height : nat) (X : list frame) :
  (0 < ws)%nat -> (0 < width)%nat -> (0 < height)%nat ->
  Forall (fun f => frame_of_size width height f = true) X ->
  (tc_n float64 ws width height X <> None <->
   length (temp_series X ws) = 222%nat) /\
  (forall a, tc_n float64 ws width height X = Some a ->
     shape a = [222; ws; width; height; 1]%nat /\
     well_formed a /\
     (Forall (Forall (Forall uint8)) X -> Forall (within 0 1) (data a))).
Proof.
  intros Hws Hwidth Hheight HX.
  destruct (np_array_uniform ws width height (temp_series X ws) Hws
              (temp_series_of_frames _ X ws HX))
    as (a0 & Ha0 & Hsize & Hdata & Hvalues).
  unfold tc_n. rewrite Ha0. cbn [bind]. unfold reshape.
  cbn [elementwise shape data].
  destruct (size_stacked 222 ws width height) as [_ H222].
  rewrite H222, Hsize.
  assert (Hpos : (ws * width * height <> 0)%nat).
  { intros H. apply Nat.eq_mul_0 in H. destruct H as [H|H]; [|lia].
    apply Nat.eq_mul_0 in H. lia. }
  destruct (Nat.eqb_spec (222 * (ws * width * height))
              (length (temp_series X ws) * (ws * width * height))) as [E|E];
    cbn [bind].
  - apply Nat.mul_cancel_r in E; [|exact Hpos]. split.
    + split; [now intros _|discriminate].
    + intros a Ha. injection Ha as <-. cbn [shape data]. split; [reflexivity|].
      split.
      * unfold well_formed. cbn [shape data].
        rewrite length_map, Hdata, Hsize, H222, <- E. reflexivity.
      * intros Hpixels. rewrite Hvalues, map_map. apply Forall_map.
        apply Forall_concat, Forall_concat, Forall_concat.
        pose proof (temp_series_of_frames _ X ws Hpixels) as Hseries.
        eapply Forall_impl; [|exact Hseries].
        intros w [_ Hw]. eapply Forall_impl; [|exact Hw].
        intros f Hf. eapply Forall_impl; [|exact Hf].
        intros row Hrow. eapply Forall_impl; [|exact Hrow].
        intros p Hp. now apply scaled_pixel.
  - split.
    + split; [congruence|]. intros H. rewrite H in E. congruence.
    + discriminate.
Qed.

(** X19. With a window size of 0 every window is empty and the reshape to
    222 windows succeeds for any number of frames: the cells return an
    array of shape (222, 0, width, height, 1) without elements. *)
Theorem tc_n_empty_windows (width height : nat) (X : list frame) :
  tc_n float64 0 width height X
  = Some {| shape := [222; 0; width; height; 1]%nat; data := [] |}.
Proof.
  assert (Hwindow : forall n, window X 0 n = []).
  { intros n. unfold window, Py.slice.
    replace (Z.to_nat (n + Z.of_nat 0 - n)) with 0%nat by lia.
    reflexivity. }
  assert (Hseries : temp_series X 0 = repeat [] (S (length X))).
  { unfold temp_series.
    assert (Hk : kept_offsets X 0 = offsets X 0).
    { unfold kept_offsets. apply forallb_filter_id, forallb_forall.
      intros n Hn. unfold keeps. rewrite Hwindow. reflexivity. }
    rewrite Hk, (map_ext _ (fun _ => []) Hwindow), map_const.
    f_equal. unfold offsets, Py.range, Py.len.
    rewrite length_map, length_seq. lia. }
  unfold tc_n. rewrite Hseries.
  assert (Hflat : forall k, concat (concat (concat (repeat (@nil frame) k)))
                            = []).
  { induction k as [|k IH]; [reflexivity|exact IH]. }
  assert (Hall : forall k,
             forallb (fun w : list frame =>
                        (length w =? 0)%nat
                        && forallb (frame_of_size width height) w)
                     (repeat [] k) = true).
  { induction k as [|k IH]; [reflexivity|exact IH]. }
  unfold np_array. cbn [repeat]. 
  change ([] :: repeat [] (length X)) with (repeat (@nil frame) (S (length X))).
  rewrite Hall, Hflat. cbn [bind Nat.eqb elementwise shape data map].
  unfold reshape, elementwise. cbn [shape data map].
  assert (H222 : size [222; 0; width; height; 1]%nat = 0%nat) by reflexivity.
  assert (Hn : forall n, size [n; 0]%nat = 0%nat)
    by (intros n; simpl; apply Nat.mul_0_r).
  rewrite H222, Hn. reflexivity.
Qed.

End WindowsProperties.

(** 223 frames of a single pixel give 222 windows of one frame. *)
Lemma tc_n_returns_witness :
  let X := repeat [[5]] 223 in
  (tc_n binary64 1 1 1 X <> None <-> length (temp_series X 1) = 222%nat) /\
  (forall a, tc_n binary64 1 1 1 X = Some a ->
     shape a = [222; 1; 1; 1; 1]%nat /\
     well_formed a /\
     (Forall (Forall (Forall uint8)) X -> Forall (within 0 1) (data a))).
Proof.
  intros X.
  apply (tc_n_returns binary64 1 1 1 X); [lia|lia|lia|].
  apply Forall_forall. intros f Hf. apply repeat_spec in Hf.
  rewrite Hf. reflexivity.
Defined.

(** ** Indexing *)




Lemma size_app (s t : list nat) : size (s ++ t) = (size s * size t)%nat.
Proof. induction s as [|n s IH]; simpl; [lia|]. rewrite IH. lia. Qed.

Lemma size_rev (s : list nat) : size (rev s) = size s.
Proof.
  induction s as [|n s IH]; [reflexivity|].
  simpl. rewrite size_app, IH. simpl. lia.
Qed.

Lemma py_sum_repeat (x : Z) (n : nat) : py_sum (repeat x n) = Z.of_nat n * x.
Proof. induction n as [|n IH]; [reflexivity|]. simpl repeat. unfold py_sum in *. simpl fold_right. rewrite IH. lia. Qed.


(** ** The montage *)

Section MontageProperties.

Context (float64 : Q -> Q).

(** [np.rot90] needs two axes, and the quarter turn and the transposition
    keep the number of elements. *)
Lemma rot90_returns (data : ndarray) :
  match rot90 data with
  | Some turned =>
      (2 <= length (shape data))%nat /\
      size (shape (transpose turned)) = size (shape data)
  | None => (length (shape data) < 2)%nat
  end.
Proof.
  unfold rot90. destruct (shape data) as [|n0 [|n1 rest]]; simpl length;
    [lia|lia|].
  split; [lia|]. unfold transpose, tabulate. cbn [shape].
  rewrite size_rev. simpl. lia.
Qed.

Ltac split_guard :=
  match goal with
  | |- context [if ?b then _ else _] =>
      let E := fresh "E" in destruct b eqn:E; cbn [bind]
  end.

Ltac facts :=
  repeat match goal with
         | H : andb _ _ = true |- _ => apply andb_true_iff in H; destruct H
         | H : andb _ _ = false |- _ => apply andb_false_iff in H; destruct H
         | H : orb _ _ = true |- _ => apply orb_true_iff in H; destruct H
         | H : orb _ _ = false |- _ => apply orb_false_iff in H; destruct H
         | H : (_ =? _)%nat = true |- _ => apply Nat.eqb_eq in H
         | H : (_ =? _)%nat = false |- _ => apply Nat.eqb_neq in H
         | H : (_ <? _)%nat = true |- _ => apply Nat.ltb_lt in H
         | H : (_ <? _)%nat = false |- _ => apply Nat.ltb_ge in H
         | H : (_ =? _) = true |- _ => apply Z.eqb_eq in H
         | H : (_ =? _) = false |- _ => apply Z.eqb_neq in H
         end.

(** X20. [plot_slices] draws the montage exactly when the data has at
    least two axes and [num_rows * num_columns * width * height] elements,
    the grid has at least two rows and two columns, and [width] and
    [height] are at least 1; otherwise it raises. *)
Theorem plot_slices_returns_iff (num_rows num_columns width height : nat)
  (data : ndarray) :
  plot_slices float64 num_rows num_columns width height data <> None <->
  (2 <= length (shape data))%nat /\
  size (shape data) = (num_rows * num_columns * width * height)%nat /\
  (2 <= num_rows)%nat /\ (2 <= num_columns)%nat /\
  (1 <= width)%nat /\ (1 <= height)%nat.
Proof.
  unfold plot_slices. pose proof (rot90_returns data) as Hrot.
  destruct (rot90 data) as [turned|]; cbn [bind]; [|split; [congruence|lia]].
  destruct Hrot as [Haxes Hsize]. unfold reshape. rewrite Hsize.
  assert (Hnew : size [num_rows; num_columns; width; height]
                 = (num_rows * num_columns * width * height)%nat)
    by (simpl; lia).
  rewrite Hnew.
  repeat split_guard; rewrite ?py_sum_repeat in *; facts;
    (split; [try congruence; intros _|try discriminate; intros Hgood]).
  all: nia.
Qed.




End MontageProperties.



(** A grid of a single row is refused. *)
Example plot_slices_single_row :
  plot_slices binary64 1 4 1 1 four_slices = None.
Proof. reflexivity. Qed.

(** The montage of eight slices of 2 by 2 elements on a grid of 2 by 4,
    the element [(u, v)] of the slice [k] being [100 k + 10 u + v]: the
    slices follow each other along the rows, each with its second axis
    reversed. *)
Example plot_slices_example :
  option_map (fun m => map (map data) (shown m))
    (plot_slices binary64 2 4 2 2
       (tabulate [2; 2; 8]%nat
          (fun idx => match idx with
                      | [u; v; k] => of_int (Z.of_nat (100 * k + 10 * u + v))
                      | _ => NaN
                      end)))
  = Some (map (map (map of_int))
            [[[1; 0; 11; 10]; [101; 100; 111; 110];
              [201; 200; 211; 210]; [301; 300; 311; 310]];
             [[401; 400; 411; 410]; [501; 500; 511; 510];
              [601; 600; 611; 610]; [701; 700; 711; 710]]]).
Proof. vm_compute. reflexivity. Qed.
